(** * e2e-messaging: the multicast chat client (client.py)

    A shallow embedding of the peer-to-peer chat client: the receive loop
    [listen_for_messages], the discovery loop, the foreground send loop and
    the pickle wire format they exchange, followed by the properties of the
    protocol engine that are proved (or refuted) on that embedding. *)

From Stdlib Require Import NArith ZArith List Lia Bool.
From Stdlib.Strings Require Import Byte Ascii String.
From Stdlib Require DecimalString.
From stdpp Require Import base option list countable gmap.
Import ListNotations.

Local Open Scope N_scope.
Set Warnings "-register-all".

(** ** Python data as the client sees it *)

(** A [bytes] object is a sequence of octets, a [str] a sequence of Unicode
    code points (any value below 0x110000, lone surrogates included). *)
Abbreviation bytes := (list byte) (only parsing).
Abbreviation str := (list N) (only parsing).

Module Py.

(** The octet whose value is [n] modulo 256. *)
Definition byte_of_N (n : N) : byte :=
  match Byte.of_N (n mod 256) with
  | Some b => b
  | None => x00
  end.

#[export] Instance byte_eq_dec : EqDecision byte := Byte.byte_eq_dec.

(** A string literal of the source, as code points. *)
Definition lit (s : string) : str :=
  map N_of_ascii (list_ascii_of_string s).

Arguments lit : simpl never.

(** Every code point of a [str] is below 0x110000. *)
Definition is_str (s : str) : Prop := Forall (fun c => c < 0x110000) s.

Definition is_surrogate (c : N) : bool := (0xD800 <=? c) && (c <=? 0xDFFF).

(** The text can be encoded by the strict UTF-8 codec: code points in range
    and no lone surrogate. *)
Definition is_text (s : str) : Prop :=
  Forall (fun c => c < 0x110000 /\ is_surrogate c = false) s.

(** Exceptions, by the two classes the handlers of the client tell apart:
    [OSError] with its errno, and every other subclass of [Exception],
    named.  What is raised outside [Exception] ([SystemExit],
    [KeyboardInterrupt] in a thread) is not modelled. *)
Inductive exn : Type :=
| OSError (errno : Z)
| Exception (name : string).

Definition EBADF : Z := 9%Z.

(** The values a datagram can unpickle to. [POther] stands for an object of
    any other type, described by what iterating over it yields ([None] when
    it is not iterable); it is taken to have no [decode] method and to
    compare unequal to every [str]. *)
Inductive pyval : Type :=
| PNone
| PBool (b : bool)
| PInt (z : Z)
| PStr (s : str)
| PBytes (b : bytes)
| PByteArray (b : bytes)
| PTuple (items : list pyval)
| PList (items : list pyval)
| POther (iter : option (list pyval)).

(** [str.startswith] and the first field of [str.split(sep)]. *)
Fixpoint startswith (s prefix : str) : bool :=
  match prefix, s with
  | [], _ => true
  | p :: prefix', c :: s' => (p =? c) && startswith s' prefix'
  | _ :: _, [] => false
  end.

(** [s.split(sep)[0]] for a non-empty separator: the text before the first
    occurrence of [sep], the whole of [s] when there is none. *)
Fixpoint split_head (sep s : str) : str :=
  match s with
  | [] => []
  | c :: s' => if startswith s sep then [] else c :: split_head sep s'
  end.

(** The separator ": " occurs nowhere in [s]. *)
Fixpoint no_separator (s : str) : bool :=
  match s with
  | [] => true
  | _ :: s' => negb (startswith s (lit ": ")) && no_separator s'
  end.

(** [str.lower] on an ASCII code point. *)
Definition ascii_lower (c : N) : N :=
  if (65 <=? c) && (c <=? 90) then c + 32 else c.

Definition is_ascii (s : str) : bool := forallb (fun c => c <? 128) s.

(** The five targets of [a, b, c, d, e = value]. *)
Definition iterate (v : pyval) : option (list pyval) :=
  match v with
  | PTuple l | PList l => Some l
  | PStr s => Some (map (fun c => PStr [c]) s)
  | PBytes b | PByteArray b =>
    Some (map (fun x => PInt (Z.of_N (Byte.to_N x))) b)
  | POther it => it
  | PNone | PBool _ | PInt _ => None
  end.

Definition unpack5 (v : pyval)
  : exn + (pyval * pyval * pyval * pyval * pyval) :=
  match iterate v with
  | None => inl (Exception "TypeError")
  | Some [a; b; c; d; e] => inr (a, b, c, d, e)
  | Some _ => inl (Exception "ValueError")
  end.

End Py.

(** ** UTF-8, as [str.encode] and [bytes.decode] use it *)

Module Utf8.
Import Py.

Definition encode_cp (c : N) : bytes :=
  if c <? 0x80 then [byte_of_N c]
  else if c <? 0x800 then
    [byte_of_N (0xC0 + c / 64); byte_of_N (0x80 + c mod 64)]
  else if c <? 0x10000 then
    [byte_of_N (0xE0 + c / 4096); byte_of_N (0x80 + (c / 64) mod 64);
     byte_of_N (0x80 + c mod 64)]
  else
    [byte_of_N (0xF0 + c / 262144); byte_of_N (0x80 + (c / 4096) mod 64);
     byte_of_N (0x80 + (c / 64) mod 64); byte_of_N (0x80 + c mod 64)].

(** [s.encode('utf-8')] when [surrogatepass] is [false]: a lone surrogate
    raises [UnicodeEncodeError] ([None]); [s.encode('utf-8',
    'surrogatepass')] otherwise. *)
Fixpoint encode (surrogatepass : bool) (s : str) : option bytes :=
  match s with
  | [] => Some []
  | c :: s' =>
    if (c <? 0x110000) && (surrogatepass || negb (is_surrogate c))
    then app (encode_cp c) <$> encode surrogatepass s'
    else None
  end.

Definition is_cont (b : byte) : bool :=
  (0x80 <=? Byte.to_N b) && (Byte.to_N b <=? 0xBF).

Definition low6 (b : byte) : N := Byte.to_N b - 0x80.

(** [b.decode('utf-8')]: overlong forms, stray continuation bytes, truncated
    sequences and values above 0x10FFFF raise [UnicodeDecodeError]
    ([None]); encoded surrogates are accepted only under
    [surrogatepass]. *)
Fixpoint decode (surrogatepass : bool) (b : bytes) : option str :=
  match b with
  | [] => Some []
  | b0 :: t0 =>
    let n0 := Byte.to_N b0 in
    if n0 <? 0x80 then cons n0 <$> decode surrogatepass t0
    else if n0 <? 0xC2 then None
    else if n0 <? 0xE0 then
      match t0 with
      | b1 :: t1 =>
        if is_cont b1
        then cons ((n0 - 0xC0) * 64 + low6 b1) <$> decode surrogatepass t1
        else None
      | _ => None
      end
    else if n0 <? 0xF0 then
      match t0 with
      | b1 :: b2 :: t2 =>
        let c := (n0 - 0xE0) * 4096 + low6 b1 * 64 + low6 b2 in
        if is_cont b1 && is_cont b2 && (0x800 <=? c)
           && (surrogatepass || negb (is_surrogate c))
        then cons c <$> decode surrogatepass t2
        else None
      | _ => None
      end
    else if n0 <? 0xF5 then
      match t0 with
      | b1 :: b2 :: b3 :: t3 =>
        let c := (n0 - 0xF0) * 262144 + low6 b1 * 4096 + low6 b2 * 64
                 + low6 b3 in
        if is_cont b1 && is_cont b2 && is_cont b3
           && (0x10000 <=? c) && (c <? 0x110000)
        then cons c <$> decode surrogatepass t3
        else None
      | _ => None
      end
    else None
  end.

End Utf8.

(** ** The pickle wire format

    [pickle.dumps] and [pickle.loads] at protocol 4 (the default from
    Python 3.8 on), cut down to what the client puts on the wire: tuples of
    [str] and [bytes] objects.  The pickler follows [pickle.py]: memo by
    object identity, frames of 64 KiB, large objects written outside the
    frames.  The unpickler is the stack machine of [pickle.loads], after
    the C implementation that [pickle.loads] is ([_pickle.c]), for the
    opcodes that build values out of the payload alone; FRAME only checks
    that the announced octets are there.  What the model does not decide
    (an opcode outside the fragment, such as GLOBAL and REDUCE, which call
    into the program; an allocation whose outcome depends on the memory
    at hand) is answered [Unmodelled], never an exception. *)

Module Pickle.
Import Py.

(** [struct.pack("<B" | "<I" | "<Q", n)]: [k] little-endian octets;
    [struct.error] ([None]) when [n] does not fit. *)
Fixpoint le_bytes (k : nat) (n : N) : bytes :=
  match k with
  | O => []
  | S k' => byte_of_N (n mod 256) :: le_bytes k' (n / 256)
  end.

Definition pack (k : nat) (n : N) : option bytes :=
  if n <? 256 ^ N.of_nat k then Some (le_bytes k n) else None.

(** [struct.unpack] of a little-endian unsigned field. *)
Fixpoint le_value (b : bytes) : N :=
  match b with
  | [] => 0
  | x :: b' => Byte.to_N x + 256 * le_value b'
  end.

Definition len (b : bytes) : N := N.of_nat (length b).

(** *** Pickler *)

(** An object handed to the pickler: its identity [id(obj)] and its value. *)
Inductive atom : Type :=
| AStr (s : str)
| ABytes (b : bytes).

Record obj : Type := { oid : N; oval : atom }.

Definition value_of (o : obj) : pyval :=
  match oval o with
  | AStr s => PStr s
  | ABytes b => PBytes b
  end.

(** The pickler: what has reached the output, the frame being filled, and
    the memo, the identities of the objects written so far in the order of
    their memo index. *)
Record pickler : Type :=
  { p_out : bytes; p_frame : bytes; p_memo : list N }.

Definition FRAME_SIZE_MIN : N := 4.
Definition FRAME_SIZE_TARGET : N := 64 * 1024.

(** [_Framer.write] once framing has started: into the current frame. *)
Definition write (data : bytes) (p : pickler) : pickler :=
  {| p_out := p_out p; p_frame := p_frame p ++ data; p_memo := p_memo p |}.

(** The FRAME opcode and its length, for a frame of at least
    [FRAME_SIZE_MIN] octets; shorter frames go out bare. *)
Definition frame_header (frame : bytes) : option bytes :=
  if FRAME_SIZE_MIN <=? len frame
  then cons x95 <$> pack 8 (len frame)
  else Some [].

(** [_Framer.commit_frame]: the frame is flushed when it has reached the
    target size or when [force] is set. *)
Definition commit_frame (force : bool) (p : pickler) : option pickler :=
  if force || (FRAME_SIZE_TARGET <=? len (p_frame p)) then
    hdr ← frame_header (p_frame p);
    Some {| p_out := p_out p ++ hdr ++ p_frame p; p_frame := [];
            p_memo := p_memo p |}
  else Some p.

(** [_Framer.write_large_bytes]: the current frame is flushed and the object
    goes to the output directly, outside any frame. *)
Definition write_large_bytes (header payload : bytes) (p : pickler)
  : option pickler :=
  p' ← commit_frame true p;
  Some {| p_out := p_out p' ++ header ++ payload; p_frame := [];
          p_memo := p_memo p' |}.

(** [self.memo.get(id(obj))]: the memo index of an identity. *)
Fixpoint memo_index (i : N) (memo : list N) : option N :=
  match memo with
  | [] => None
  | j :: memo' => if i =? j then Some 0 else N.succ <$> memo_index i memo'
  end.

(** [self.memoize(obj)]: protocol 4 writes MEMOIZE, the index is the size of
    the memo. *)
Definition memoize (i : N) (p : pickler) : pickler :=
  let p' := write [x94] p in
  {| p_out := p_out p'; p_frame := p_frame p'; p_memo := p_memo p ++ [i] |}.

(** [self.get(i)]: BINGET or LONG_BINGET. *)
Definition get (i : N) : option bytes :=
  if i <? 256 then cons x68 <$> pack 1 i else cons x6a <$> pack 4 i.

(** The counted header of a [bytes] ([short], [b4], [b8] are the three
    opcodes) and how the payload is written. *)
Definition save_counted (short b4 b8 : byte) (data : bytes) (p : pickler)
  : option pickler :=
  let n := len data in
  if n <=? 0xff then
    hdr ← pack 1 n; Some (write (short :: hdr ++ data) p)
  else if 0xffffffff <? n then
    hdr ← pack 8 n; write_large_bytes (b8 :: hdr) data p
  else if FRAME_SIZE_TARGET <=? n then
    hdr ← pack 4 n; write_large_bytes (b4 :: hdr) data p
  else
    hdr ← pack 4 n; Some (write (b4 :: hdr ++ data) p).

Definition save_bytes (i : N) (b : bytes) (p : pickler) : option pickler :=
  memoize i <$> save_counted x43 x42 x8e b p.

Definition save_str (i : N) (s : str) (p : pickler) : option pickler :=
  encoded ← Utf8.encode true s;
  memoize i <$> save_counted x8c x58 x8d encoded p.

(** [self.save(obj)] for a [str] or [bytes] object. *)
Definition save (o : obj) (p : pickler) : option pickler :=
  p ← commit_frame false p;
  match memo_index (oid o) (p_memo p) with
  | Some i => hdr ← get i; Some (write hdr p)
  | None =>
    match oval o with
    | AStr s => save_str (oid o) s p
    | ABytes b => save_bytes (oid o) b p
    end
  end.

(** [for element in obj: save(element)]. *)
Fixpoint save_all (items : list obj) (p : pickler) : option pickler :=
  match items with
  | [] => Some p
  | o :: items' => p' ← save o p; save_all items' p'
  end.

(** TUPLE1, TUPLE2, TUPLE3. *)
Definition tuple_code (n : nat) : byte :=
  match n with
  | 1%nat => x85
  | 2%nat => x86
  | _ => x87
  end.

(** [save_tuple] for a tuple object of identity [tid] whose items are
    [str] and [bytes] objects. *)
Definition save_tuple (tid : N) (items : list obj) (p : pickler)
  : option pickler :=
  match items with
  | [] => Some (write [x29] p)
  | _ =>
    if (length items <=? 3)%nat then
      p ← save_all items p;
      match memo_index tid (p_memo p) with
      | Some i =>
        hdr ← get i; Some (write (repeat x30 (length items) ++ hdr) p)
      | None => Some (memoize tid (write [tuple_code (length items)] p))
      end
    else
      p ← save_all items (write [x28] p);
      match memo_index tid (p_memo p) with
      | Some i => hdr ← get i; Some (write (x31 :: hdr) p)
      | None => Some (memoize tid (write [x74] p))
      end
  end.

(** [pickle.dumps(t)] for a tuple [t]: PROTO 4, framing started, the tuple
    saved, STOP, framing ended. *)
Definition dumps (tid : N) (items : list obj) : option bytes :=
  let p0 := {| p_out := [x80; x04]; p_frame := []; p_memo := [] |} in
  p ← commit_frame false p0;
  p ← save_tuple tid items p;
  p ← commit_frame true (write [x2e] p);
  Some (p_out p).

(** *** Unpickler *)

Record vm : Type :=
  { stack : list pyval;            (* top of the stack first *)
    metastack : list (list pyval);
    memo : gmap N pyval }.

Inductive step_result : Type :=
| Next (st : vm) (rest : bytes)
| Stop (v : pyval)
| Raise (e : exn)
| Unmodelled.

(** [sys.maxsize]. *)
Definition maxsize : N := 2 ^ 63 - 1.

Definition truncated : step_result := Raise (Exception "UnpicklingError").
Definition underflow : step_result := Raise (Exception "UnpicklingError").

(** [n] octets of input and what follows them, when they are there. *)
Definition read (n : N) (b : bytes) : option (bytes * bytes) :=
  if n <=? len b
  then Some (take (N.to_nat n) b, drop (N.to_nat n) b)
  else None.

Definition push (v : pyval) (st : vm) : vm :=
  {| stack := v :: stack st; metastack := metastack st; memo := memo st |}.

Definition set_stack (s : list pyval) (st : vm) : vm :=
  {| stack := s; metastack := metastack st; memo := memo st |}.

(** An opcode with a [k]-octet unsigned argument. *)
Definition with_uint (k : nat) (b : bytes) (f : N -> bytes -> step_result)
  : step_result :=
  match read (N.of_nat k) b with
  | Some (arg, rest) => f (le_value arg) rest
  | None => truncated
  end.

(** An opcode with a counted payload, the count on [k] octets, that reads
    the payload before it builds the object (the BINUNICODE family). *)
Definition with_counted (k : nat) (b : bytes)
  (f : bytes -> bytes -> step_result) : step_result :=
  with_uint k b (fun n rest =>
    if maxsize <? n then Raise (Exception "OverflowError")
    else match read n rest with
         | Some (data, rest') => f data rest'
         | None => truncated
         end).

(** Below this size an allocation is taken to succeed. *)
Definition SMALL : N := 2 ^ 20.

(** An opcode with a counted payload that allocates the object before it
    reads the payload into it (the BINBYTES family and BYTEARRAY8): when
    the announced octets are not there, a small object is allocated and
    the read fails; for a large one the allocation may fail first
    ([MemoryError], [OverflowError]), which the model does not decide. *)
Definition with_allocated (k : nat) (b : bytes)
  (f : bytes -> bytes -> step_result) : step_result :=
  with_uint k b (fun n rest =>
    if maxsize <? n then Raise (Exception "OverflowError")
    else match read n rest with
         | Some (data, rest') => f data rest'
         | None => if n <? SMALL then truncated else Unmodelled
         end).

Definition load_bytes (st : vm) (data rest : bytes) : step_result :=
  Next (push (PBytes data) st) rest.

Definition load_bytearray (st : vm) (data rest : bytes) : step_result :=
  Next (push (PByteArray data) st) rest.

Definition load_unicode (st : vm) (data rest : bytes) : step_result :=
  match Utf8.decode true data with
  | Some s => Next (push (PStr s) st) rest
  | None => Raise (Exception "UnicodeDecodeError")
  end.

Definition load_get (st : vm) (i : N) (rest : bytes) : step_result :=
  match memo st !! i with
  | Some v => Next (push v st) rest
  | None => Raise (Exception "UnpicklingError")
  end.

Definition load_put (st : vm) (i : N) (rest : bytes) : step_result :=
  match stack st with
  | v :: _ =>
    Next {| stack := stack st; metastack := metastack st;
            memo := <[i := v]> (memo st) |} rest
  | [] => underflow
  end.

(** LONG_BINPUT: the memo is an array that is grown to twice the index,
    which for a large index may fail ([MemoryError]). *)
Definition load_long_put (st : vm) (i : N) (rest : bytes) : step_result :=
  match stack st with
  | _ :: _ => if i <? SMALL then load_put st i rest else Unmodelled
  | [] => underflow
  end.

(** [pop_mark]: the items above the last MARK, bottom first, and the
    machine with the stack below the mark restored. *)
Definition pop_mark (st : vm) : option (list pyval * vm) :=
  match metastack st with
  | below :: meta =>
    Some (rev (stack st),
          {| stack := below; metastack := meta; memo := memo st |})
  | [] => None
  end.

(** [struct.unpack('<i', ...)]. *)
Definition signed32 (n : N) : Z :=
  if n <? 2 ^ 31 then Z.of_N n else (Z.of_N n - 2 ^ 32)%Z.

(** The opcodes of the fragment. *)
Inductive opcode : Type :=
| PROTO | FRAME | STOP | NONE | NEWTRUE | NEWFALSE
| BININT | BININT1 | BININT2
| SHORT_BINBYTES | BINBYTES | BINBYTES8 | BYTEARRAY8
| SHORT_BINUNICODE | BINUNICODE | BINUNICODE8
| EMPTY_TUPLE | TUPLE1 | TUPLE2 | TUPLE3 | MARK | TUPLE
| POP | POP_MARK
| MEMOIZE | BINPUT | LONG_BINPUT | BINGET | LONG_BINGET.

Definition opcode_of_byte (key : byte) : option opcode :=
  match key with
  | x80 => Some PROTO | x95 => Some FRAME | x2e => Some STOP
  | x4e => Some NONE | x88 => Some NEWTRUE | x89 => Some NEWFALSE
  | x4a => Some BININT | x4b => Some BININT1 | x4d => Some BININT2
  | x43 => Some SHORT_BINBYTES | x42 => Some BINBYTES
  | x8e => Some BINBYTES8 | x96 => Some BYTEARRAY8
  | x8c => Some SHORT_BINUNICODE | x58 => Some BINUNICODE
  | x8d => Some BINUNICODE8
  | x29 => Some EMPTY_TUPLE | x85 => Some TUPLE1 | x86 => Some TUPLE2
  | x87 => Some TUPLE3 | x28 => Some MARK | x74 => Some TUPLE
  | x30 => Some POP | x31 => Some POP_MARK
  | x94 => Some MEMOIZE | x71 => Some BINPUT | x72 => Some LONG_BINPUT
  | x68 => Some BINGET | x6a => Some LONG_BINGET
  | _ => None
  end.

(** What one opcode does, [b] being the input after its key. *)
Definition dispatch (op : opcode) (st : vm) (b : bytes) : step_result :=
  match op with
  | PROTO =>
    with_uint 1 b (fun proto rest =>
      if proto <=? 5 then Next st rest
      else Raise (Exception "ValueError"))
  | FRAME =>
    with_uint 8 b (fun n rest =>
      if maxsize <? n then Raise (Exception "OverflowError")
      else if n <=? len rest then Next st rest else truncated)
  | STOP =>
    match stack st with
    | v :: _ => Stop v
    | [] => underflow
    end
  | NONE => Next (push PNone st) b
  | NEWTRUE => Next (push (PBool true) st) b
  | NEWFALSE => Next (push (PBool false) st) b
  | BININT =>
    with_uint 4 b (fun n rest => Next (push (PInt (signed32 n)) st) rest)
  | BININT1 =>
    with_uint 1 b (fun n rest => Next (push (PInt (Z.of_N n)) st) rest)
  | BININT2 =>
    with_uint 2 b (fun n rest => Next (push (PInt (Z.of_N n)) st) rest)
  | SHORT_BINBYTES => with_allocated 1 b (load_bytes st)
  | BINBYTES => with_allocated 4 b (load_bytes st)
  | BINBYTES8 => with_allocated 8 b (load_bytes st)
  | BYTEARRAY8 => with_allocated 8 b (load_bytearray st)
  | SHORT_BINUNICODE => with_counted 1 b (load_unicode st)
  | BINUNICODE => with_counted 4 b (load_unicode st)
  | BINUNICODE8 => with_counted 8 b (load_unicode st)
  | EMPTY_TUPLE => Next (push (PTuple []) st) b
  | TUPLE1 =>
    match stack st with
    | v1 :: s => Next (set_stack (PTuple [v1] :: s) st) b
    | _ => underflow
    end
  | TUPLE2 =>
    match stack st with
    | v2 :: v1 :: s => Next (set_stack (PTuple [v1; v2] :: s) st) b
    | _ => underflow
    end
  | TUPLE3 =>
    match stack st with
    | v3 :: v2 :: v1 :: s =>
      Next (set_stack (PTuple [v1; v2; v3] :: s) st) b
    | _ => underflow
    end
  | MARK =>
    Next {| stack := []; metastack := stack st :: metastack st;
            memo := memo st |} b
  | TUPLE =>
    match pop_mark st with
    | Some (items, st') => Next (push (PTuple items) st') b
    | None => underflow
    end
  | POP =>
    match stack st with
    | _ :: s => Next (set_stack s st) b
    | [] => match pop_mark st with
            | Some (_, st') => Next st' b
            | None => underflow
            end
    end
  | POP_MARK =>
    match pop_mark st with
    | Some (_, st') => Next st' b
    | None => underflow
    end
  | MEMOIZE => load_put st (N.of_nat (size (memo st))) b
  | BINPUT => with_uint 1 b (load_put st)
  | LONG_BINPUT => with_uint 4 b (load_long_put st)
  | BINGET => with_uint 1 b (load_get st)
  | LONG_BINGET => with_uint 4 b (load_get st)
  end.

(** One step of the machine: read a key, run its opcode.  A key outside
    the fragment is reported as [Unmodelled]. *)
Definition step (st : vm) (input : bytes) : step_result :=
  match input with
  | [] => Raise (Exception "EOFError")
  | key :: b =>
    match opcode_of_byte key with
    | Some op => dispatch op st b
    | None => Unmodelled
    end
  end.

Inductive outcome : Type :=
| Loaded (v : pyval)
| Raised (e : exn)
| NotModelled.

Fixpoint run (fuel : nat) (st : vm) (input : bytes) : outcome :=
  match fuel with
  | O => NotModelled
  | S fuel' =>
    match step st input with
    | Next st' rest => run fuel' st' rest
    | Stop v => Loaded v
    | Raise e => Raised e
    | Unmodelled => NotModelled
    end
  end.

(** The machine when [load] starts. *)
Definition vm0 : vm := {| stack := []; metastack := []; memo := ∅ |}.

(** [pickle.loads(payload)]: every opcode consumes at least one octet, so
    the length of the payload bounds the number of steps. *)
Definition loads_outcome (payload : bytes) : outcome :=
  run (S (length payload)) vm0 payload.

(** The value or the exception, [None] where the model does not decide. *)
Definition loads (payload : bytes) : option (exn + pyval) :=
  match loads_outcome payload with
  | Loaded v => Some (inr v)
  | Raised e => Some (inl e)
  | NotModelled => None
  end.

(** [message_type, encrypted_message, nonce, signature, sig_nonce =
    pickle.loads(payload)]. *)
Definition decode (payload : bytes)
  : option (exn + (pyval * pyval * pyval * pyval * pyval)) :=
  match loads payload with
  | Some (inr v) => Some (unpack5 v)
  | Some (inl e) => Some (inl e)
  | None => None
  end.

(** *** Well-formed input of the pickler *)

(** A [bytes] object holds at most [sys.maxsize] octets. *)
Definition is_bytes (b : bytes) : Prop := len b <= maxsize.

(** A [bytes] object, or a [str] object whose UTF-8 form is one. *)
Definition wf_obj (o : obj) : Prop :=
  match oval o with
  | ABytes b => is_bytes b
  | AStr s =>
    is_str s /\ forall enc, Utf8.encode true s = Some enc -> is_bytes enc
  end.

(** An identity names one object. *)
Definition consistent (items : list obj) : Prop :=
  forall o1 o2,
    o1 ∈ items -> o2 ∈ items -> oid o1 = oid o2 -> oval o1 = oval o2.

End Pickle.

(** ** The client *)

Module Client.
Import Py.

(** What the client prints. *)
Inductive output : Type :=
| Display (raw_received_message : str)
| Welcome (new_username : str)
| HasLeft (decrypted_username : str)
| UnknownType (message_type : pyval)
| ErrorReceiving (e : exn)
| ErrorDiscovery (e : exn)
| ErrorSending (e : exn)
| Exiting.

(** The printed line, for the notices that are made of text only. *)
Definition line (o : output) : option str :=
  match o with
  | Display raw => Some raw
  | Welcome u => Some (lit "Welcome " ++ u ++ lit " to the chat!")
  | HasLeft u => Some (u ++ lit " has left the chat.")
  | Exiting => Some (lit "Exiting chat...")
  | _ => None
  end.

(** The state the receive loop works on: the peer directory and the
    console, oldest line first. *)
Record state (pubkey : Type) : Type :=
  { known_peers : gmap (list N) pubkey; console : list output }.

Arguments known_peers {pubkey} _.
Arguments console {pubkey} _.
Arguments Build_state {pubkey} _ _.

(** What client.py calls and does not define: [pickle], the module
    [crypto_utils], the constant [config.NULL_BYTE] and pieces of the
    interpreter.

    [pickle.loads] runs the payload: besides building a value or raising,
    it calls what the payload's GLOBAL and REDUCE opcodes name, and such a
    call can write [known_peers] or print before the value is there.  It
    is therefore a statement on the state of the loop; what else a payload
    can do to the process is outside this model.

    [unpack_data] decrypts to text and raises on malformed or tampered
    input; [unpack_data_key] is the same call with [isKey=True], which
    yields key material; [pack_data] encrypts and signs,
    [pack_data_unsigned] is the call with [sign=False];
    [verify_signature] answers [False] on a mismatch.

    [lower_unicode] is [str.lower] on text that is not pure ASCII;
    [repr_value] is what an f-string makes of a value that is not a [str]
    (its [repr], which raises [RecursionError] on a value nested too
    deep); [exn_str] is the message of an exception, [str(e)]. *)
Class Collaborators (pubkey : Type) : Type :=
  { pickle_loads : bytes -> state pubkey -> (exn + pyval) * state pubkey;
    pickle_dumps : list pyval -> bytes;
    unpack_data : pyval -> pyval -> exn + str;
    unpack_data_key : pyval -> pyval -> exn + pubkey;
    verify_signature : pubkey -> pyval -> bytes -> bool;
    pack_data : bytes -> bytes * bytes * bytes;
    pack_data_unsigned : bytes -> bytes * bytes;
    get_ed_public_key : bytes;
    NULL_BYTE : bytes;
    lower_unicode : str -> str;
    repr_value : pyval -> exn + str;
    exn_str : exn -> str }.

(** What [recvfrom] does when the receive loop calls it. *)
Inductive recv_event : Type :=
| Datagram (payload : bytes)
| RecvRaises (e : exn).

Inductive loop_status : Type := Running | Stopped.

(** [value == "literal"]. *)
Definition eq_lit (v : pyval) (s : string) : bool :=
  match v with
  | PStr s' => bool_decide (s' = lit s)
  | _ => false
  end.

(** [value.decode('utf-8')]: [bytes] and [bytearray] have the method. *)
Definition decode_utf8 (v : pyval) : exn + str :=
  match v with
  | PBytes b | PByteArray b =>
    match Utf8.decode false b with
    | Some s => inr s
    | None => inl (Exception "UnicodeDecodeError")
    end
  | _ => inl (Exception "AttributeError")
  end.

(** [text.encode('utf-8')]. *)
Definition encode_utf8 (s : str) : exn + bytes :=
  match Utf8.encode false s with
  | Some b => inr b
  | None => inl (Exception "UnicodeEncodeError")
  end.

(** [str.lower]. *)
Definition lower `{Collaborators pubkey} (s : str) : str :=
  if is_ascii s then map ascii_lower s else lower_unicode s.

Section Engine.
Context {pubkey : Type} `{!Collaborators pubkey}.

(** The local username, fixed once the prompt has been answered. *)
Variable username : str.

Definition initial : state pubkey := {| known_peers := ∅; console := [] |}.

(** Statements of the loop body: they read and update the state and may
    raise. *)
Definition M (A : Type) : Type := state pubkey -> (exn + A) * state pubkey.

Definition ret {A} (a : A) : M A := fun st => (inr a, st).
Definition raise {A} (e : exn) : M A := fun st => (inl e, st).
Definition bind {A B} (m : M A) (k : A -> M B) : M B :=
  fun st => match m st with
            | (inr a, st') => k a st'
            | (inl e, st') => (inl e, st')
            end.
Definition lift {A} (r : exn + A) : M A :=
  match r with inr a => ret a | inl e => raise e end.

(** What the f-string makes of a message type: a [str] as it is, another
    value by its [repr]. *)
Definition format_value (v : pyval) : exn + str :=
  match v with
  | PStr s => inr s
  | _ => repr_value v
  end.

(** The text of a line, when formatting it does not raise. *)
Definition text_of (o : output) : exn + str :=
  match o with
  | Display raw => inr raw
  | Welcome u => inr (lit "Welcome " ++ u ++ lit " to the chat!")
  | HasLeft u => inr (u ++ lit " has left the chat.")
  | UnknownType mt =>
    match format_value mt with
    | inr s => inr (lit "Unknown message type: " ++ s)
    | inl e => inl e
    end
  | ErrorReceiving e => inr (lit "Error receiving message: " ++ exn_str e)
  | ErrorDiscovery e => inr (lit "Error in discovery loop: " ++ exn_str e)
  | ErrorSending e => inr (lit "Error sending payload: " ++ exn_str e)
  | Exiting => inr (lit "Exiting chat...")
  end.

(** What [print(f"...")] does besides showing the line.  The console is a
    text stream with the UTF-8 codec and strict error handling, as
    [sys.stdout] is by default: the line is encoded as a whole before any
    of it is written, and a lone surrogate raises [UnicodeEncodeError].
    A console with another codec, or one that is closed, is not
    modelled. *)
Definition written (o : output) : exn + unit :=
  match text_of o with
  | inl e => inl e
  | inr s =>
    match Utf8.encode false s with
    | Some _ => inr tt
    | None => inl (Exception "UnicodeEncodeError")
    end
  end.

(** What a [print] of the line leaves on the console. *)
Definition shows (o : output) : list output :=
  match written o with
  | inr tt => [o]
  | inl _ => []
  end.

(** [print(f"...")]: the line is shown, or nothing is and the call
    raises. *)
Definition print (o : output) : M unit :=
  fun st =>
    match written o with
    | inr tt => (inr tt, {| known_peers := known_peers st;
                            console := console st ++ [o] |})
    | inl e => (inl e, st)
    end.
Definition peers : M (gmap (list N) pubkey) :=
  fun st => (inr (known_peers st), st).
Definition set_peers (d : gmap (list N) pubkey) : M unit :=
  fun st => (inr tt, {| known_peers := d; console := console st |}).

#[local] Instance engine_ret : MRet M := @ret.
#[local] Instance engine_bind : MBind M := fun A B k m => bind m k.

(** The CHAT branch. *)
Definition on_chat (encrypted_message nonce signature : pyval) : M unit :=
  raw_received_message ← lift (unpack_data encrypted_message nonce);
  if negb (startswith raw_received_message (username ++ lit ": ")) then
    let sender_username := split_head (lit ": ") raw_received_message in
    known ← peers;
    match known !! sender_username with
    | None => ret tt
    | Some key =>
      message ← lift (encode_utf8 raw_received_message);
      if verify_signature key signature message
      then print (Display raw_received_message)
      else ret tt
    end
  else ret tt.

(** The JOIN branch. *)
Definition on_join (encrypted_message nonce signature sig_nonce : pyval)
  : M unit :=
  new_username ← lift (unpack_data encrypted_message nonce);
  decrypted_public_key ← lift (unpack_data_key signature sig_nonce);
  known ← peers;
  match known !! new_username with
  | None =>
    _ ← set_peers (<[new_username := decrypted_public_key]> known);
    print (Welcome new_username)
  | Some _ => ret tt
  end.

(** The LEAVE branch. *)
Definition on_leave (encrypted_message : pyval) : M unit :=
  decrypted_username ← lift (decode_utf8 encrypted_message);
  _ ← print (HasLeft decrypted_username);
  known ← peers;
  match known !! decrypted_username with
  | Some _ => set_peers (delete decrypted_username known)
  | None => ret tt
  end.

(** The dispatch on the message type. *)
Definition dispatch (envelope : pyval * pyval * pyval * pyval * pyval)
  : M unit :=
  let '(message_type, encrypted_message, nonce, signature, sig_nonce) :=
    envelope in
  if eq_lit message_type "CHAT" then
    on_chat encrypted_message nonce signature
  else if eq_lit message_type "JOIN" then
    on_join encrypted_message nonce signature sig_nonce
  else if eq_lit message_type "LEAVE" then
    on_leave encrypted_message
  else print (UnknownType message_type).

(** [pickle.loads] followed by the unpacking into five names. *)
Definition decode (payload : bytes)
  : M (pyval * pyval * pyval * pyval * pyval) :=
  v ← pickle_loads payload;
  lift (unpack5 v).

(** The body of the [try]. *)
Definition try_body (ev : recv_event) : M unit :=
  match ev with
  | RecvRaises e => raise e
  | Datagram payload =>
    envelope ← decode payload;
    dispatch envelope
  end.

(** One turn of [while True]: the [try] and its two handlers.  A [print]
    that raises in the second handler unwinds the thread: the loop has
    ended all the same, without the line. *)
Definition listen_iteration (ev : recv_event) (st : state pubkey)
  : loop_status * state pubkey :=
  match try_body ev st with
  | (inr tt, st') => (Running, st')
  | (inl (OSError errno), st') =>
    if (errno =? EBADF)%Z then (Running, st') else (Running, st')
  | (inl (Exception name), st') =>
    (Stopped, snd (print (ErrorReceiving (Exception name)) st'))
  end.

(** [listen_for_messages] over what [recvfrom] delivers, in order.  The
    result is [Running] when the loop is back in [recvfrom] waiting for
    more, [Stopped] when it has left the [while] by [break]. *)
Fixpoint listen_for_messages (evs : list recv_event) (st : state pubkey)
  : loop_status * state pubkey :=
  match evs with
  | [] => (Running, st)
  | ev :: evs' =>
    match listen_iteration ev st with
    | (Running, st') => listen_for_messages evs' st'
    | (Stopped, st') => (Stopped, st')
    end
  end.

(** One turn of [discovery_loop] up to [sendto]: the JOIN payload, or the
    exception that ends the loop. *)
Definition discovery_payload : exn + bytes :=
  match encode_utf8 username with
  | inl e => inl e
  | inr name =>
    let '(encrypted_discovery_username, username_nonce) :=
      pack_data_unsigned name in
    let '(encrypted_ed_public_key, public_key_nonce) :=
      pack_data_unsigned get_ed_public_key in
    inr (pickle_dumps
           [PStr (lit "JOIN"); PBytes encrypted_discovery_username;
            PBytes username_nonce; PBytes encrypted_ed_public_key;
            PBytes public_key_nonce])
  end.

(** One turn of the send loop, up to [sendto]. *)
Inductive send_action : Type :=
| Exit
| SendChat (payload : bytes)
| Uncaught (e : exn).

Definition send_iteration (raw_message : str) : send_action :=
  if bool_decide (lower raw_message = lit "exit") then Exit
  else
    let raw_formatted_message := username ++ lit ": " ++ raw_message in
    match encode_utf8 raw_formatted_message with
    | inl e => Uncaught e
    | inr message =>
      let '(encrypted_message, message_nonce, signature) :=
        pack_data message in
      SendChat (pickle_dumps
                  [PStr (lit "CHAT"); PBytes encrypted_message;
                   PBytes message_nonce; PBytes signature;
                   PBytes NULL_BYTE])
    end.

(** The LEAVE payload sent on the way out. *)
Definition leave_payload : exn + bytes :=
  match encode_utf8 username with
  | inl e => inl e
  | inr name =>
    inr (pickle_dumps
           [PStr (lit "LEAVE"); PBytes name; PBytes NULL_BYTE;
            PBytes NULL_BYTE; PBytes NULL_BYTE])
  end.

(** The lines added to the console between two states. *)
Definition printed (st st' : state pubkey) : list output :=
  drop (length (console st)) (console st').

(** The payload is data: unpickling it gives [r], a value or an exception,
    whatever the state, and does nothing else. *)
Definition plain (payload : bytes) (r : exn + pyval) : Prop :=
  forall st, pickle_loads payload st = (r, st).

(** What is received is data: an exception of [recvfrom], or a payload
    whose unpickling calls nothing. *)
Definition data_only (ev : recv_event) : Prop :=
  match ev with
  | Datagram payload => exists r, plain payload r
  | RecvRaises _ => True
  end.

(** The payload is data that unpacks into the five fields. *)
Definition decodes (payload : bytes)
  (envelope : pyval * pyval * pyval * pyval * pyval) : Prop :=
  forall st, decode payload st = (inr envelope, st).

(** The received datagram is a JOIN that decrypts to the username [u]. *)
Definition announces (ev : recv_event) (u : str) : Prop :=
  exists payload e n s sn,
    ev = Datagram payload /\
    decodes payload (PStr (lit "JOIN"), e, n, s, sn) /\
    unpack_data e n = inr u.


End Engine.

End Client.

(** ** A concrete set of collaborators

    The pickle model above together with a transparent stand-in for
    [crypto_utils]: "encryption" reverses the octets under a fixed nonce,
    a "signature" is the signer's key followed by the message, and a key
    verifies exactly the signatures built from it.  It serves to run the
    client on concrete traffic.  Where the stand-in does not know what
    CPython does (a payload the pickle model does not decide, the [repr]
    of a value outside the cases below) it raises [NotImplementedError];
    nothing that is proved runs into it. *)

Module Demo.
Import Py Client.

(** The objects CPython keeps one of: the [bytes] of at most one octet and
    the [str] of at most one Latin-1 character.  Two equal items of a
    tuple that are such are one object; any other two items are taken to
    be two objects, as results of separate calls are. *)
Definition shared (v : pyval) : bool :=
  match v with
  | PBytes b => (length b <=? 1)%nat
  | PStr [] => true
  | PStr [c] => c <? 256
  | _ => false
  end.

Definition same (v w : pyval) : bool :=
  match v, w with
  | PStr s, PStr t => bool_decide (s = t)
  | PBytes b, PBytes c => bool_decide (b = c)
  | _, _ => false
  end.

(** The identity of the first of the items [seen], numbered from [next],
    that [v] is one object with. *)
Fixpoint identity_of (v : pyval) (seen : list pyval) (next : N) : option N :=
  match seen with
  | [] => None
  | w :: seen' =>
    if shared v && same v w then Some next
    else identity_of v seen' (N.succ next)
  end.

Definition atom_of (v : pyval) : option Pickle.atom :=
  match v with
  | PStr s => Some (Pickle.AStr s)
  | PBytes b => Some (Pickle.ABytes b)
  | _ => None
  end.

(** The items of a tuple as objects, [seen] being the items before them:
    the identity is the position, from 1, of the first occurrence. *)
Fixpoint objects_after (seen items : list pyval) : option (list Pickle.obj) :=
  match items with
  | [] => Some []
  | v :: items' =>
    a ← atom_of v;
    cons {| Pickle.oid :=
              default (N.succ (N.of_nat (length seen))) (identity_of v seen 1);
            Pickle.oval := a |}
      <$> objects_after (seen ++ [v]) items'
  end.

Definition objects (items : list pyval) : option (list Pickle.obj) :=
  objects_after [] items.

Definition dumps (items : list pyval) : bytes :=
  default [] (objects items ≫= Pickle.dumps 0).

(** The unpickler of the stand-in takes data only: it runs the machine and
    does nothing else. *)
Definition unpickle (payload : bytes) : exn + pyval :=
  default (inl (Exception "NotImplementedError")) (Pickle.loads payload).

(** [repr] of the values the machine builds, for ASCII text and lone
    surrogates. *)
Definition hex_digit (n : N) : N := if n <? 10 then 48 + n else 87 + n.

Definition escape_x (c : N) : str :=
  [92; 120; hex_digit (c / 16); hex_digit (c mod 16)].

Definition escape_u (c : N) : str :=
  [92; 117; hex_digit (c / 4096); hex_digit ((c / 256) mod 16);
   hex_digit ((c / 16) mod 16); hex_digit (c mod 16)].

(** The quote [repr] chooses: the double quote when the text holds a
    single quote and no double quote. *)
Definition quote_of (s : str) : N :=
  if existsb (N.eqb 39) s && negb (existsb (N.eqb 34) s) then 34 else 39.

Definition escape_ascii (quote c : N) : str :=
  if (c =? quote) || (c =? 92) then [92; c]
  else if c =? 9 then [92; 116]
  else if c =? 10 then [92; 110]
  else if c =? 13 then [92; 114]
  else if (c <? 32) || (127 <=? c) then escape_x c
  else [c].

Definition repr_bytes (b : bytes) : str :=
  let s := map Byte.to_N b in
  let quote := quote_of s in
  98 :: quote :: concat (map (escape_ascii quote) s) ++ [quote].

Definition repr_str (s : str) : option str :=
  let quote := quote_of s in
  body ← mapM (fun c =>
                 if c <? 128 then Some (escape_ascii quote c)
                 else if is_surrogate c then Some (escape_u c)
                 else None) s;
  Some (quote :: concat body ++ [quote]).

Definition repr_int (z : Z) : str :=
  lit (DecimalString.NilZero.string_of_int (Z.to_int z)).

Fixpoint join_reprs (items : list str) : str :=
  match items with
  | [] => []
  | [r] => r
  | r :: items' => r ++ lit ", " ++ join_reprs items'
  end.

Definition unknown {A} : exn + A := inl (Exception "NotImplementedError").

(** The [repr] of each item, or the first exception. *)
Fixpoint reprs (f : pyval -> exn + str) (items : list pyval)
  : exn + list str :=
  match items with
  | [] => inr []
  | v :: items' =>
    match f v with
    | inl e => inl e
    | inr r =>
      match reprs f items' with
      | inl e => inl e
      | inr rs => inr (r :: rs)
      end
    end
  end.

(** [repr(v)], [fuel] being the number of nested calls of [repr] the
    interpreter still allows: [RecursionError] beyond. *)
Fixpoint repr (fuel : nat) (v : pyval) : exn + str :=
  match fuel with
  | O => inl (Exception "RecursionError")
  | S fuel' =>
    match v with
    | PNone => inr (lit "None")
    | PBool true => inr (lit "True")
    | PBool false => inr (lit "False")
    | PInt z => inr (repr_int z)
    | PStr s => match repr_str s with Some r => inr r | None => unknown end
    | PBytes b => inr (repr_bytes b)
    | PByteArray b => inr (lit "bytearray(" ++ repr_bytes b ++ lit ")")
    | PTuple [item] =>
      match repr fuel' item with
      | inr r => inr (lit "(" ++ r ++ lit ",)")
      | inl e => inl e
      end
    | PTuple items =>
      match reprs (repr fuel') items with
      | inr rs => inr (lit "(" ++ join_reprs rs ++ lit ")")
      | inl e => inl e
      end
    | PList items =>
      match reprs (repr fuel') items with
      | inr rs => inr (lit "[" ++ join_reprs rs ++ lit "]")
      | inl e => inl e
      end
    | POther _ => unknown
    end
  end.

(** The nested calls of [repr] that CPython 3.11 allows in the listener
    thread under the default recursion limit of 1000. *)
Definition REPR_DEPTH : nat := 995.

Definition nonce : bytes := [x01].

Definition decrypt (data nonce : pyval) : exn + bytes :=
  match data, nonce with
  | PBytes b, PBytes _ => inr (rev b)
  | _, _ => inl (Exception "TypeError")
  end.

Definition local_key : bytes := list_byte_of_string "K".

(** The message of an exception is not part of the model: the stand-in
    shows its name. *)
Definition message_of (e : exn) : str :=
  match e with
  | OSError _ => lit "OSError"
  | Exception name => lit name
  end.

#[export] Instance collaborators : Collaborators bytes :=
  {| pickle_loads payload st := (unpickle payload, st);
     pickle_dumps := dumps;
     unpack_data data n :=
       match decrypt data n with
       | inr b => decode_utf8 (PBytes b)
       | inl e => inl e
       end;
     unpack_data_key := decrypt;
     verify_signature key signature message :=
       match signature with
       | PBytes s => bool_decide (s = key ++ message)
       | _ => false
       end;
     pack_data message := (rev message, nonce, local_key ++ message);
     pack_data_unsigned message := (rev message, nonce);
     get_ed_public_key := local_key;
     NULL_BYTE := [];
     lower_unicode s := s;
     repr_value := repr REPR_DEPTH;
     exn_str := message_of |}.

(** Traffic from a peer whose key is [key]. *)
Definition join_from (key : bytes) (name : string) : bytes :=
  dumps [PStr (lit "JOIN"); PBytes (rev (list_byte_of_string name));
         PBytes nonce; PBytes (rev key); PBytes nonce].

Definition chat_from (key : bytes) (text : string) : bytes :=
  dumps [PStr (lit "CHAT"); PBytes (rev (list_byte_of_string text));
         PBytes nonce; PBytes (key ++ list_byte_of_string text);
         PBytes []].

Definition leave_from (name : string) : bytes :=
  dumps [PStr (lit "LEAVE"); PBytes (list_byte_of_string name);
         PBytes []; PBytes []; PBytes []].

(** Two keys and two usernames. *)
Definition key_A : bytes := list_byte_of_string "A".
Definition key_B : bytes := list_byte_of_string "B".
Definition bob : str := lit "bob".
Definition alice : str := lit "alice".

(** The directory of [bob] once [alice] has joined. *)
Definition st_alice : state bytes :=
  {| known_peers := {[ alice := key_A ]}; console := [Welcome alice] |}.

(** The objects of a LEAVE as the client builds it: the placeholder
    [NULL_BYTE] is one object, used three times. *)
Definition leave_objects : list Pickle.obj :=
  [ {| Pickle.oid := 1; Pickle.oval := Pickle.AStr (lit "LEAVE") |};
    {| Pickle.oid := 2;
       Pickle.oval := Pickle.ABytes (list_byte_of_string "bob") |};
    {| Pickle.oid := 3; Pickle.oval := Pickle.ABytes [] |};
    {| Pickle.oid := 3; Pickle.oval := Pickle.ABytes [] |};
    {| Pickle.oid := 3; Pickle.oval := Pickle.ABytes [] |} ].

(** A LEAVE pickled at protocol 5 whose username is a [bytearray]. *)
Definition leave_bytearray : bytes :=
  [x80; x05; x95; x22; x00; x00; x00; x00; x00; x00; x00; x28; x8c; x05;
   x4c; x45; x41; x56; x45; x94; x96; x05; x00; x00; x00; x00; x00; x00;
   x00; x61; x6c; x69; x63; x65; x94; x43; x00; x94; x68; x02; x68; x02;
   x74; x94; x2e].

(** [None] in [d] nested tuples of one item, and a message that has it as
    its type, written with MARK ... TUPLE. *)
Definition nested (d : nat) : pyval :=
  Nat.iter d (fun v => PTuple [v]) PNone.

Definition typed_nested (d : nat) : bytes :=
  [x80; x04; x28; x4e] ++ repeat x85 d
  ++ [x43; x00; x43; x00; x43; x00; x43; x00; x74; x2e].

(** A payload that is not data.  It names the [known_peers] of the running
    program (GLOBAL "__main__" "known_peers"), stores [b"M"] under
    ["alice"] in it (SETITEM), drops it (POP) and leaves [None] as its
    value. *)
Definition gadget : bytes :=
  [x80; x04; x63; x5f; x5f; x6d; x61; x69; x6e; x5f; x5f; x0a; x6b; x6e;
   x6f; x77; x6e; x5f; x70; x65; x65; x72; x73; x0a; x8c; x05; x61; x6c;
   x69; x63; x65; x43; x01; x4d; x73; x30; x4e; x2e].

(** The stand-in with CPython's unpickler on that payload. *)
Definition with_gadget : Collaborators bytes :=
  {| pickle_loads payload st :=
       if bool_decide (payload = gadget)
       then (inr PNone,
             {| known_peers := <[lit "alice" := [x4d]]> (known_peers st);
                console := console st |})
       else (unpickle payload, st);
     pickle_dumps := pickle_dumps;
     unpack_data := unpack_data;
     unpack_data_key := unpack_data_key;
     verify_signature := verify_signature;
     pack_data := pack_data;
     pack_data_unsigned := pack_data_unsigned;
     get_ed_public_key := get_ed_public_key;
     NULL_BYTE := NULL_BYTE;
     lower_unicode := lower_unicode;
     repr_value := repr_value;
     exn_str := exn_str |}.

End Demo.

(** ** The rest of the program: the prompt, the discovery loop, the send loop
    and the shutdown *)

Module Program.
Import Py Client.

(** [str.isspace] on one code point: what [str.strip] removes. *)
Definition is_space (c : N) : bool :=
  ((0x09 <=? c) && (c <=? 0x0D)) || ((0x1C <=? c) && (c <=? 0x20))
  || (c =? 0x85) || (c =? 0xA0) || (c =? 0x1680)
  || ((0x2000 <=? c) && (c <=? 0x200A))
  || (c =? 0x2028) || (c =? 0x2029) || (c =? 0x202F) || (c =? 0x205F)
  || (c =? 0x3000).

Fixpoint lstrip (s : str) : str :=
  match s with
  | [] => []
  | c :: s' => if is_space c then lstrip s' else s
  end.

Definition rstrip (s : str) : str := rev (lstrip (rev s)).

(** [s.strip()]. *)
Definition strip (s : str) : str := rstrip (lstrip s).

(** The prompt for the username: the answer stripped, refused ([None]: the
    client closes the socket and exits with status 1) when nothing is
    left. *)
Definition prompt_username (typed : str) : option str :=
  match strip typed with
  | [] => None
  | username => Some username
  end.

(** What the main thread prints. *)
Inductive main_line : Type :=
| ExitingChat
| ExitingChatOnNewLine
| ErrorSendingPayload (errno : Z).

(** What the main thread meets at its prompt: a line, with what [sendto]
    does if the line is sent ([Some errno]: it raises [socket.error]);
    Ctrl-C; the end of the input. *)
Inductive input_event : Type :=
| Typed (raw_message : str) (sendto : option Z)
| Interrupt
| EndOfFile.

(** How the send loop stands: back at the prompt, left by [break] or by the
    handler of [KeyboardInterrupt], or unwound by an exception nothing
    catches. *)
Inductive loop_exit : Type :=
| AtPrompt
| LeftLoop
| Unwound (e : exn).

(** How the process stands. *)
Inductive ending : Type :=
| Reading
| Exited
| Died (e : exn).

Record session : Type :=
  { sent : list bytes; shown : list main_line; ended : ending }.

Section Loops.
Context {pubkey : Type} `{!Collaborators pubkey}.
Variable username : str.

(** [discovery_loop], one turn per announced outcome of [sendto] ([Some e]:
    it raises): the datagrams sent, what is printed, and whether the loop
    is still alive. *)
Fixpoint discovery_loop (sendto : list (option exn))
  : list bytes * list output * loop_status :=
  match sendto with
  | [] => ([], [], Running)
  | outcome :: sendto' =>
    match discovery_payload username with
    | inl e => ([], [ErrorDiscovery e], Stopped)
    | inr payload =>
      match outcome with
      | Some e => ([], [ErrorDiscovery e], Stopped)
      | None =>
        let '(datagrams, lines, status) := discovery_loop sendto' in
        (payload :: datagrams, lines, status)
      end
    end
  end.

(** The send loop over what the prompt meets, in order. *)
Fixpoint send_loop (events : list input_event)
  : list bytes * list main_line * loop_exit :=
  match events with
  | [] => ([], [], AtPrompt)
  | Interrupt :: _ => ([], [ExitingChatOnNewLine], LeftLoop)
  | EndOfFile :: _ => ([], [], Unwound (Exception "EOFError"))
  | Typed raw_message sendto :: events' =>
    match send_iteration username raw_message with
    | Exit => ([], [ExitingChat], LeftLoop)
    | Uncaught e => ([], [], Unwound e)
    | SendChat payload =>
      match sendto with
      | Some errno => ([], [ErrorSendingPayload errno], LeftLoop)
      | None =>
        let '(datagrams, lines, exit) := send_loop events' in
        (payload :: datagrams, lines, exit)
      end
    end
  end.

(** The main thread: the send loop, then, once the loop is left, the LEAVE
    and the close.  [leave_sendto] is what the last [sendto] does. *)
Definition main (events : list input_event) (leave_sendto : option Z)
  : session :=
  let '(datagrams, lines, exit) := send_loop events in
  match exit with
  | AtPrompt => {| sent := datagrams; shown := lines; ended := Reading |}
  | Unwound e => {| sent := datagrams; shown := lines; ended := Died e |}
  | LeftLoop =>
    match leave_payload username with
    | inl e => {| sent := datagrams; shown := lines; ended := Died e |}
    | inr payload =>
      match leave_sendto with
      | Some errno =>
        {| sent := datagrams; shown := lines;
           ended := Died (OSError errno) |}
      | None =>
        {| sent := datagrams ++ [payload]; shown := lines;
           ended := Exited |}
      end
    end
  end.

(** The tuples the client pickles: the JOIN of a username whose UTF-8 form
    is [name], the CHAT of a formatted line whose UTF-8 form is [message],
    the LEAVE of a username whose UTF-8 form is [name]. *)
Definition join_items (name : bytes) : list pyval :=
  [PStr (lit "JOIN"); PBytes (pack_data_unsigned name).1;
   PBytes (pack_data_unsigned name).2;
   PBytes (pack_data_unsigned get_ed_public_key).1;
   PBytes (pack_data_unsigned get_ed_public_key).2].

Definition chat_items (message : bytes) : list pyval :=
  [PStr (lit "CHAT"); PBytes (pack_data message).1.1;
   PBytes (pack_data message).1.2; PBytes (pack_data message).2;
   PBytes NULL_BYTE].

Definition leave_items (name : bytes) : list pyval :=
  [PStr (lit "LEAVE"); PBytes name; PBytes NULL_BYTE; PBytes NULL_BYTE;
   PBytes NULL_BYTE].

(** *** What the receive loop is told about the collaborators *)

(** The tuple [items] survives the wire: what [pickle.dumps] makes of it
    is data that unpickles to it. *)
Definition pickles (items : list pyval) : Prop :=
  plain (pickle_dumps items) (inr (PTuple items)).

(** What [pack_data] made of [message] decrypts to [text]. *)
Definition decrypts (message : bytes) (text : str) : Prop :=
  unpack_data (PBytes (pack_data message).1.1)
    (PBytes (pack_data message).1.2) = inr text.

Definition decrypts_unsigned (message : bytes) (text : str) : Prop :=
  unpack_data (PBytes (pack_data_unsigned message).1)
    (PBytes (pack_data_unsigned message).2) = inr text.

(** The announced key decrypts to [k]. *)
Definition key_decrypts (k : pubkey) : Prop :=
  unpack_data_key (PBytes (pack_data_unsigned get_ed_public_key).1)
    (PBytes (pack_data_unsigned get_ed_public_key).2) = inr k.

(** The signature [pack_data] made for [message] verifies against [k]. *)
Definition signs (k : pubkey) (message : bytes) : Prop :=
  verify_signature k (PBytes (pack_data message).2) message = true.

(** *** What a received datagram is *)

(** A JOIN that decrypts to the username [u] and the key [k]. *)
Definition carries (ev : recv_event) (u : str) (k : pubkey) : Prop :=
  exists payload e n s sn,
    ev = Datagram payload /\
    decodes payload (PStr (lit "JOIN"), e, n, s, sn) /\
    unpack_data e n = inr u /\ unpack_data_key s sn = inr k.

(** A LEAVE that names the username [u]. *)
Definition names_leave (ev : recv_event) (u : str) : Prop :=
  exists payload e n s sn,
    ev = Datagram payload /\
    decodes payload (PStr (lit "LEAVE"), e, n, s, sn) /\
    decode_utf8 e = inr u.

End Loops.

End Program.

(** ** The pickler against the unpickler: what the proofs speak of *)

Module PickleSim.
Import Py Pickle.

(** The machine run with all the fuel its input can need. *)
Definition run_all (st : vm) (input : bytes) : outcome :=
  run (S (length input)) st input.

(** The chunk [data] takes the machine from [st] to [st'], whatever
    follows it. *)
Definition acts (data : bytes) (st st' : vm) : Prop :=
  forall rest, run_all st (data ++ rest) = run_all st' rest.

(** The machine after MEMOIZE with [v] on top of the stack. *)
Definition memoized (v : pyval) (st : vm) : vm :=
  {| stack := stack st; metastack := metastack st;
     memo := <[N.of_nat (size (memo st)) := v]> (memo st) |}.

(** The machine, started on what the pickler has written so far completed
    by any end [s] of the current frame and any [rest], is in state [st]
    when it reaches [s]. *)
Definition V (p : pickler) (st : vm) : Prop :=
  forall s rest,
    len (p_frame p ++ s) <= maxsize ->
    exists hdr,
      frame_header (p_frame p ++ s) = Some hdr /\
      run_all vm0 (p_out p ++ hdr ++ (p_frame p ++ s) ++ rest)
      = run_all st (s ++ rest).

(** The pickler has saved the objects [done] of [items]; the machine has
    read what was written and holds their values. *)
Record Inv (items : list obj) (ms : list (list pyval)) (done : list obj)
  (p : pickler) (st : vm) : Prop :=
  { inv_V : V p st;
    inv_frame : len (p_frame p) < 2 * FRAME_SIZE_TARGET + 16;
    inv_stack : stack st = rev (map value_of done);
    inv_meta : metastack st = ms;
    inv_size : size (memo st) = length (p_memo p);
    inv_dom : forall i, is_Some (memo st !! i) ->
                        i < N.of_nat (length (p_memo p));
    inv_memo : forall i id, p_memo p !! i = Some id ->
               exists o, o ∈ items /\ oid o = id /\
                         memo st !! N.of_nat i = Some (value_of o);
    inv_len : (length (p_memo p) <= length done)%nat }.

End PickleSim.

(** ** Facts about the data model *)

Module PyFacts.
Import Py.

Ltac Zify.zify_post_hook ::= Z.to_euclidean_division_equations.

Lemma to_N_byte_of_N (n : N) : n < 256 -> Byte.to_N (byte_of_N n) = n.
Proof.
  intros Hn. unfold byte_of_N.
  rewrite N.mod_small by exact Hn.
  destruct (Byte.of_N n) as [b|] eqn:E.
  - now apply Byte.to_of_N.
  - apply Byte.of_N_None_iff in E. lia.
Qed.

Lemma byte_of_N_to_N (b : byte) : byte_of_N (Byte.to_N b) = b.
Proof.
  unfold byte_of_N.
  pose proof (Byte.to_N_bounded b) as Hb.
  rewrite N.mod_small by lia.
  now rewrite Byte.of_to_N.
Qed.

End PyFacts.

Module Utf8Facts.
Import Py Utf8 PyFacts.

Ltac Zify.zify_post_hook ::= Z.to_euclidean_division_equations.

(** Replaces by its value every comparison of the goal that linear
    arithmetic settles. *)
Ltac settle_comparisons :=
  repeat match goal with
  | |- context [?a <? ?b] =>
    first [ replace (a <? b) with true by (symmetry; apply N.ltb_lt; lia)
          | replace (a <? b) with false by (symmetry; apply N.ltb_ge; lia) ]
  | |- context [?a <=? ?b] =>
    first [ replace (a <=? b) with true by (symmetry; apply N.leb_le; lia)
          | replace (a <=? b) with false by (symmetry; apply N.leb_gt; lia) ]
  end.

Lemma decode_encode_cp sp (c : N) (rest : bytes) :
  c < 0x110000 -> sp || negb (is_surrogate c) = true ->
  decode sp (encode_cp c ++ rest) = cons c <$> decode sp rest.
Proof.
  intros Hc Hs. unfold encode_cp.
  destruct (c <? 0x80) eqn:E1; [apply N.ltb_lt in E1|apply N.ltb_ge in E1].
  { cbn [app decode]. rewrite to_N_byte_of_N by lia.
    now settle_comparisons. }
  destruct (c <? 0x800) eqn:E2; [apply N.ltb_lt in E2|apply N.ltb_ge in E2].
  { cbn [app decode]. unfold is_cont, low6.
    rewrite !to_N_byte_of_N by lia. settle_comparisons. cbn [andb].
    replace ((0xC0 + c / 64 - 0xC0) * 64 + (0x80 + c mod 64 - 0x80))
      with c by lia.
    reflexivity. }
  destruct (c <? 0x10000) eqn:E3;
    [apply N.ltb_lt in E3|apply N.ltb_ge in E3].
  { cbn [app decode]. unfold is_cont, low6.
    rewrite !to_N_byte_of_N by lia.
    replace ((0xE0 + c / 4096 - 0xE0) * 4096
             + (0x80 + (c / 64) mod 64 - 0x80) * 64
             + (0x80 + c mod 64 - 0x80)) with c by lia.
    settle_comparisons. now rewrite Hs. }
  cbn [app decode]. unfold is_cont, low6.
  rewrite !to_N_byte_of_N by lia.
  replace ((0xF0 + c / 262144 - 0xF0) * 262144
           + (0x80 + (c / 4096) mod 64 - 0x80) * 4096
           + (0x80 + (c / 64) mod 64 - 0x80) * 64
           + (0x80 + c mod 64 - 0x80)) with c by lia.
  now settle_comparisons.
Qed.

(** Encoding then decoding a text gives the text back, in both modes. *)
Lemma decode_encode sp (s : str) (b : bytes) :
  encode sp s = Some b -> decode sp b = Some s.
Proof.
  revert b. induction s as [|c s IH]; intros b H.
  - cbn in H. injection H as <-. reflexivity.
  - cbn [encode] in H.
    destruct ((c <? 0x110000) && (sp || negb (is_surrogate c))) eqn:Hc;
      [|discriminate].
    apply andb_prop in Hc as [Hlt Hsur]. apply N.ltb_lt in Hlt.
    destruct (encode sp s) as [b'|]; [|discriminate].
    cbn in H. injection H as <-.
    rewrite (decode_encode_cp sp c b' Hlt Hsur), (IH b' eq_refl).
    reflexivity.
Qed.

Lemma encode_str (s : str) : is_str s -> exists b, encode true s = Some b.
Proof.
  induction 1 as [|c s Hc _ [b IH]].
  - now exists [].
  - cbn [encode]. apply N.ltb_lt in Hc. rewrite Hc, IH. cbn. eauto.
Qed.

Lemma encode_text (s : str) : is_text s -> exists b, encode false s = Some b.
Proof.
  induction 1 as [|c s [Hc Hs] _ [b IH]].
  - now exists [].
  - cbn [encode]. apply N.ltb_lt in Hc. rewrite Hc, Hs, IH. cbn. eauto.
Qed.

Lemma is_text_separator : is_text (lit ": ").
Proof. repeat constructor. Qed.

Lemma encode_is_text (s : str) (b : bytes) :
  encode false s = Some b -> is_text s.
Proof.
  revert b. induction s as [|c s IH]; intros b H; [constructor|].
  cbn [encode] in H.
  destruct ((c <? 0x110000) && (false || negb (is_surrogate c))) eqn:Hc;
    [|discriminate].
  apply andb_prop in Hc as [Hlt Hsur]. apply N.ltb_lt in Hlt.
  cbn in Hsur. apply negb_true_iff in Hsur.
  destruct (encode false s) as [b'|] eqn:E; [|discriminate].
  constructor; [now split|]. now apply (IH b').
Qed.

Lemma encode_not_text (s : str) : ~ is_text s -> encode false s = None.
Proof.
  intros Hno. destruct (encode false s) as [b|] eqn:E; [|reflexivity].
  exfalso. apply Hno. now apply (encode_is_text s b).
Qed.

Lemma ascii_is_text (s : str) : is_ascii s = true -> is_text s.
Proof.
  unfold is_ascii. intros H. apply Forall_forall. intros c Hc.
  rewrite forallb_forall in H. apply list_elem_of_In in Hc.
  specialize (H c Hc). apply N.ltb_lt in H.
  split; [lia|]. unfold is_surrogate.
  apply andb_false_iff. left. apply N.leb_gt. lia.
Qed.

Lemma is_text_app (s t : str) : is_text s -> is_text t -> is_text (s ++ t).
Proof. intros Hs Ht. apply Forall_app. now split. Qed.

Lemma is_cont_low6 b : is_cont b = true -> low6 b < 64.
Proof.
  unfold is_cont, low6. intros H. apply andb_prop in H as [H1 H2].
  apply N.leb_le in H1. apply N.leb_le in H2. lia.
Qed.

(** What the strict decoder yields can be encoded again. *)
Lemma decode_is_text (b : bytes) (s : str) :
  decode false b = Some s -> is_text s.
Proof.
  remember (length b) as m eqn:Hm. revert b s Hm.
  induction m as [m IH] using lt_wf_ind. intros b s Hm H.
  assert (Hrec : forall t s', (length t < m)%nat ->
                              decode false t = Some s' -> is_text s').
  { intros t s' Hlt. now apply (IH (length t)). }
  clear IH. destruct b as [|b0 t0]; [injection H as <-; constructor|].
  cbn [decode] in H. cbn zeta in H. cbn [length] in Hm.
  assert (Hsur : forall c, c < 0xD800 \/ 0xDFFF < c -> is_surrogate c = false).
  { intros c Hc. unfold is_surrogate. apply andb_false_iff.
    destruct Hc; [left; apply N.leb_gt|right; apply N.leb_gt]; lia. }
  destruct (Byte.to_N b0 <? 0x80) eqn:E0.
  { apply N.ltb_lt in E0.
    destruct (decode false t0) as [s0|] eqn:E; [|discriminate].
    injection H as <-. constructor.
    - split; [lia|]. apply Hsur. lia.
    - apply (Hrec t0); [lia|exact E]. }
  destruct (Byte.to_N b0 <? 0xC2) eqn:E1; [discriminate|].
  apply N.ltb_ge in E0. apply N.ltb_ge in E1.
  destruct (Byte.to_N b0 <? 0xE0) eqn:E2.
  { apply N.ltb_lt in E2. destruct t0 as [|b1 t1]; [discriminate|].
    destruct (is_cont b1) eqn:C1; [|discriminate].
    apply is_cont_low6 in C1.
    destruct (decode false t1) as [s0|] eqn:E; [|discriminate].
    injection H as <-. constructor.
    - split; [lia|]. apply Hsur. lia.
    - apply (Hrec t1); [cbn [length] in Hm; lia|exact E]. }
  apply N.ltb_ge in E2.
  destruct (Byte.to_N b0 <? 0xF0) eqn:E3.
  { apply N.ltb_lt in E3. destruct t0 as [|b1 [|b2 t2]]; try discriminate.
    destruct (is_cont b1 && is_cont b2
              && (0x800 <=? (Byte.to_N b0 - 0xE0) * 4096 + low6 b1 * 64
                            + low6 b2)
              && (false || negb (is_surrogate
                                   ((Byte.to_N b0 - 0xE0) * 4096
                                    + low6 b1 * 64 + low6 b2)))) eqn:C;
      [|discriminate].
    apply andb_prop in C as [C Cs]. apply andb_prop in C as [C _].
    apply andb_prop in C as [C1 C2].
    apply is_cont_low6 in C1. apply is_cont_low6 in C2.
    cbn in Cs. apply negb_true_iff in Cs.
    destruct (decode false t2) as [s0|] eqn:E; [|discriminate].
    injection H as <-. constructor.
    - split; [lia|exact Cs].
    - apply (Hrec t2); [cbn [length] in Hm; lia|exact E]. }
  destruct (Byte.to_N b0 <? 0xF5) eqn:E4; [|discriminate].
  destruct t0 as [|b1 [|b2 [|b3 t3]]]; try discriminate.
  destruct (is_cont b1 && is_cont b2 && is_cont b3
            && (0x10000 <=? (Byte.to_N b0 - 0xF0) * 262144
                            + low6 b1 * 4096 + low6 b2 * 64 + low6 b3)
            && ((Byte.to_N b0 - 0xF0) * 262144 + low6 b1 * 4096
                + low6 b2 * 64 + low6 b3 <? 0x110000)) eqn:C;
    [|discriminate].
  apply andb_prop in C as [C Chi]. apply andb_prop in C as [_ Clo].
  apply N.ltb_lt in Chi. apply N.leb_le in Clo.
  destruct (decode false t3) as [s0|] eqn:E; [|discriminate].
  injection H as <-. constructor.
  - split; [exact Chi|]. apply Hsur. lia.
  - apply (Hrec t3); [cbn [length] in Hm; lia|exact E].
Qed.

End Utf8Facts.

(** ** The pickle wire format: unpickling what was pickled *)

Module PickleFacts.
Import Py Pickle PickleSim PyFacts.

Ltac Zify.zify_post_hook ::= Z.to_euclidean_division_equations.

Lemma length_le_bytes k n : length (le_bytes k n) = k.
Proof.
  revert n. induction k as [|k IH]; intros n; cbn; [reflexivity|].
  now rewrite IH.
Qed.

Lemma le_value_le_bytes k n :
  n < 256 ^ N.of_nat k -> le_value (le_bytes k n) = n.
Proof.
  revert n. induction k as [|k IH]; intros n Hn.
  - cbn in *. lia.
  - cbn [le_bytes le_value].
    rewrite to_N_byte_of_N by (apply N.mod_lt; lia).
    rewrite IH.
    + lia.
    + rewrite Nat2N.inj_succ, N.pow_succ_r' in Hn. lia.
Qed.

Lemma pack_fits k n : n < 256 ^ N.of_nat k -> pack k n = Some (le_bytes k n).
Proof. intros H. unfold pack. apply N.ltb_lt in H. now rewrite H. Qed.

Lemma len_app (a b : bytes) : len (a ++ b) = len a + len b.
Proof. unfold len. rewrite length_app. lia. Qed.

Lemma len_cons (x : byte) (b : bytes) : len (x :: b) = 1 + len b.
Proof. unfold len. cbn [length]. lia. Qed.

Lemma len_le_bytes k n : len (le_bytes k n) = N.of_nat k.
Proof. unfold len. now rewrite length_le_bytes. Qed.

Ltac len_simpl :=
  repeat (rewrite len_app || rewrite len_cons || rewrite len_le_bytes).

Lemma read_app (p rest : bytes) : read (len p) (p ++ rest) = Some (p, rest).
Proof.
  unfold read. rewrite len_app.
  replace (len p <=? len p + len rest) with true
    by (symmetry; apply N.leb_le; lia).
  unfold len. rewrite Nat2N.id.
  now rewrite take_app_length, drop_app_length.
Qed.

Lemma read_shorter n b x rest :
  read n b = Some (x, rest) -> (length rest <= length b)%nat.
Proof.
  unfold read. destruct (n <=? len b); [|discriminate].
  intros H. injection H as _ <-. rewrite length_drop. lia.
Qed.

Lemma with_uint_shorter k b f st' rest :
  (forall n r, f n r = Next st' rest -> (length rest <= length r)%nat) ->
  with_uint k b f = Next st' rest -> (length rest <= length b)%nat.
Proof.
  intros Hf. unfold with_uint.
  destruct (read (N.of_nat k) b) as [[arg r]|] eqn:E; [|discriminate].
  intros H. apply Hf in H. apply read_shorter in E. lia.
Qed.

Lemma with_counted_shorter k b f st' rest :
  (forall d r, f d r = Next st' rest -> (length rest <= length r)%nat) ->
  with_counted k b f = Next st' rest -> (length rest <= length b)%nat.
Proof.
  intros Hf. unfold with_counted. apply with_uint_shorter.
  intros n r. destruct (maxsize <? n); [discriminate|].
  destruct (read n r) as [[d r']|] eqn:E; [|discriminate].
  intros H. apply Hf in H. apply read_shorter in E. lia.
Qed.

(** Destructs what the goal matches on, as long as there is something. *)
Ltac split_matches :=
  repeat match goal with
         | |- context [if ?c then _ else _] => destruct c
         | |- context [match ?c with _ => _ end] => destruct c
         end.

Ltac next_shorter :=
  split_matches; try discriminate;
  let H := fresh in intros H; injection H as _ <-; lia.

Lemma with_allocated_shorter k b f st' rest :
  (forall d r, f d r = Next st' rest -> (length rest <= length r)%nat) ->
  with_allocated k b f = Next st' rest -> (length rest <= length b)%nat.
Proof.
  intros Hf. unfold with_allocated. apply with_uint_shorter.
  intros n r. destruct (maxsize <? n); [discriminate|].
  destruct (read n r) as [[d r']|] eqn:E;
    [|destruct (n <? SMALL); discriminate].
  intros H. apply Hf in H. apply read_shorter in E. lia.
Qed.

Lemma dispatch_shorter op st b st' rest :
  dispatch op st b = Next st' rest -> (length rest <= length b)%nat.
Proof.
  destruct op; cbn [dispatch];
    first [ apply with_uint_shorter; intros n r;
            unfold load_long_put, load_put, load_get; next_shorter
          | apply with_counted_shorter; intros d r;
            unfold load_unicode; next_shorter
          | apply with_allocated_shorter; intros d r;
            unfold load_bytes, load_bytearray; next_shorter
          | unfold load_put; next_shorter ].
Qed.

Lemma step_shorter st input st' rest :
  step st input = Next st' rest -> (length rest < length input)%nat.
Proof.
  destruct input as [|key b]; [discriminate|]. cbn [step].
  destruct (opcode_of_byte key); [|discriminate].
  intros H. apply dispatch_shorter in H. cbn. lia.
Qed.

Lemma run_fuel n m st input :
  (length input < n)%nat -> (length input < m)%nat ->
  run n st input = run m st input.
Proof.
  revert m st input. induction n as [|n IH]; intros m st input Hn Hm; [lia|].
  destruct m as [|m]; [lia|]. cbn [run].
  destruct (step st input) as [st' rest| | |] eqn:E; try reflexivity.
  apply step_shorter in E. apply IH; lia.
Qed.

Lemma run_all_next st input st' rest :
  step st input = Next st' rest -> run_all st input = run_all st' rest.
Proof.
  intros H. unfold run_all.
  replace (run (S (length input)) st input) with (run (length input) st' rest)
    by (cbn [run]; now rewrite H).
  apply step_shorter in H. apply run_fuel; lia.
Qed.

Lemma run_all_stop st input v :
  step st input = Stop v -> run_all st input = Loaded v.
Proof. intros H. unfold run_all. cbn [run]. now rewrite H. Qed.

Lemma pow_1 : 256 ^ N.of_nat 1 = 256.
Proof. reflexivity. Qed.
Lemma pow_4 : 256 ^ N.of_nat 4 = 4294967296.
Proof. reflexivity. Qed.
Lemma pow_8 : 256 ^ N.of_nat 8 = 18446744073709551616.
Proof. reflexivity. Qed.
Lemma maxsize_val : maxsize = 9223372036854775807.
Proof. reflexivity. Qed.

Lemma acts_app d1 d2 st st1 st2 :
  acts d1 st st1 -> acts d2 st1 st2 -> acts (d1 ++ d2) st st2.
Proof.
  intros H1 H2 rest. rewrite <- app_assoc. rewrite H1. apply H2.
Qed.

Lemma with_uint_app k n rest f :
  n < 256 ^ N.of_nat k -> with_uint k (le_bytes k n ++ rest) f = f n rest.
Proof.
  intros Hn. unfold with_uint.
  replace (N.of_nat k) with (len (le_bytes k n))
    by (unfold len; now rewrite length_le_bytes).
  rewrite read_app. now rewrite le_value_le_bytes.
Qed.

Lemma with_counted_app k data rest f :
  len data < 256 ^ N.of_nat k -> len data <= maxsize ->
  with_counted k (le_bytes k (len data) ++ data ++ rest) f = f data rest.
Proof.
  intros Hk Hmax. unfold with_counted. rewrite with_uint_app by exact Hk.
  replace (maxsize <? len data) with false
    by (symmetry; apply N.ltb_ge; exact Hmax).
  now rewrite read_app.
Qed.

Lemma with_allocated_app k data rest f :
  len data < 256 ^ N.of_nat k -> len data <= maxsize ->
  with_allocated k (le_bytes k (len data) ++ data ++ rest) f = f data rest.
Proof.
  intros Hk Hmax. unfold with_allocated. rewrite with_uint_app by exact Hk.
  replace (maxsize <? len data) with false
    by (symmetry; apply N.ltb_ge; exact Hmax).
  now rewrite read_app.
Qed.

Lemma acts_proto st : acts [x80; x04] st st.
Proof.
  intros rest. apply run_all_next. cbn [app step opcode_of_byte dispatch].
  change (x04 :: rest) with (le_bytes 1 4 ++ rest).
  rewrite with_uint_app by (rewrite pow_1; lia). reflexivity.
Qed.

Lemma run_frame st f rest :
  len f <= maxsize ->
  run_all st (x95 :: le_bytes 8 (len f) ++ f ++ rest) = run_all st (f ++ rest).
Proof.
  intros Hf. apply run_all_next. cbn [step opcode_of_byte dispatch].
  rewrite maxsize_val in Hf.
  rewrite with_uint_app by (rewrite pow_8; lia).
  replace (maxsize <? len f) with false
    by (symmetry; apply N.ltb_ge; rewrite maxsize_val; lia).
  replace (len f <=? len (f ++ rest)) with true
    by (symmetry; apply N.leb_le; rewrite len_app; lia).
  reflexivity.
Qed.

Lemma frame_header_run st f rest :
  len f <= maxsize ->
  exists hdr, frame_header f = Some hdr /\
              run_all st (hdr ++ f ++ rest) = run_all st (f ++ rest).
Proof.
  intros Hf. unfold frame_header.
  destruct (FRAME_SIZE_MIN <=? len f).
  - rewrite pack_fits by (rewrite pow_8; rewrite maxsize_val in Hf; lia).
    eexists. split; [reflexivity|]. cbn [app]. now apply run_frame.
  - exists []. split; reflexivity.
Qed.

Lemma acts_counted_bytes k key op data st :
  opcode_of_byte key = Some op ->
  dispatch op = (fun st b => with_allocated k b (load_bytes st)) ->
  len data < 256 ^ N.of_nat k -> len data <= maxsize ->
  acts (key :: le_bytes k (len data) ++ data) st (push (PBytes data) st).
Proof.
  intros Hkey Hop Hk Hmax rest. apply run_all_next.
  cbn [app step]. rewrite Hkey, Hop. rewrite <- app_assoc.
  now rewrite with_allocated_app.
Qed.

Lemma acts_counted_unicode k key op data s st :
  opcode_of_byte key = Some op ->
  dispatch op = (fun st b => with_counted k b (load_unicode st)) ->
  Utf8.decode true data = Some s ->
  len data < 256 ^ N.of_nat k -> len data <= maxsize ->
  acts (key :: le_bytes k (len data) ++ data) st (push (PStr s) st).
Proof.
  intros Hkey Hop Hdec Hk Hmax rest. apply run_all_next.
  cbn [app step]. rewrite Hkey, Hop. rewrite <- app_assoc.
  rewrite with_counted_app by assumption.
  unfold load_unicode. now rewrite Hdec.
Qed.

Lemma acts_memoize st v s :
  stack st = v :: s -> acts [x94] st (memoized v st).
Proof.
  intros Hs rest. apply run_all_next.
  cbn [app step opcode_of_byte dispatch]. unfold load_put, memoized.
  now rewrite Hs.
Qed.

Lemma acts_get i v st :
  i < 4294967296 -> memo st !! i = Some v ->
  exists hdr, get i = Some hdr /\ acts hdr st (push v st) /\ len hdr <= 5.
Proof.
  intros Hi Hv. unfold get. destruct (i <? 256) eqn:E.
  - apply N.ltb_lt in E. rewrite pack_fits by (rewrite pow_1; lia).
    eexists. split; [reflexivity|].
    split; [|len_simpl; lia].
    intros rest. apply run_all_next. cbn [app step opcode_of_byte dispatch].
    rewrite with_uint_app by (rewrite pow_1; lia).
    unfold load_get. now rewrite Hv.
  - rewrite pack_fits by (rewrite pow_4; lia).
    eexists. split; [reflexivity|].
    split; [|len_simpl; lia].
    intros rest. apply run_all_next. cbn [app step opcode_of_byte dispatch].
    rewrite with_uint_app by (rewrite pow_4; lia).
    unfold load_get. now rewrite Hv.
Qed.

Lemma V_start : V {| p_out := [x80; x04]; p_frame := []; p_memo := [] |} vm0.
Proof.
  intros s rest Hs. cbn [p_frame p_out app] in *.
  destruct (frame_header_run vm0 s rest Hs) as [hdr [Hh Hr]].
  exists hdr. split; [exact Hh|].
  change (x80 :: x04 :: hdr ++ s ++ rest) with ([x80; x04] ++ hdr ++ s ++ rest).
  now rewrite acts_proto.
Qed.

Lemma V_write data p st st' :
  V p st -> acts data st st' -> V (write data p) st'.
Proof.
  intros HV Hacts s rest Hlen. cbn [write p_frame p_out] in *.
  rewrite <- app_assoc in Hlen.
  destruct (HV (data ++ s) rest Hlen) as [hdr [Hh Hr]].
  exists hdr. rewrite <- !app_assoc. split; [exact Hh|].
  rewrite <- !app_assoc in Hr. rewrite Hr. apply Hacts.
Qed.

Lemma V_commit force p st :
  V p st -> len (p_frame p) <= maxsize ->
  exists p', commit_frame force p = Some p' /\ V p' st /\
             p_memo p' = p_memo p /\
             (p_frame p' = [] \/
              force = false /\ p' = p /\
              len (p_frame p) < FRAME_SIZE_TARGET).
Proof.
  intros HV Hlen. unfold commit_frame.
  destruct (force || (FRAME_SIZE_TARGET <=? len (p_frame p))) eqn:E.
  - destruct (HV [] []) as [hdr [Hh _]]; [now rewrite app_nil_r|].
    rewrite app_nil_r in Hh. rewrite Hh. cbn.
    eexists. split; [reflexivity|]. split; [|split; [reflexivity|now left]].
    intros s rest Hs. cbn [p_frame p_out app] in *.
    destruct (frame_header_run st s rest Hs) as [hs [Hhs Hrs]].
    exists hs. split; [exact Hhs|].
    destruct (HV [] (hs ++ s ++ rest)) as [hdr' [Hh' Hr']];
      [now rewrite app_nil_r|].
    rewrite app_nil_r in Hh', Hr'. rewrite Hh in Hh'. injection Hh' as <-.
    rewrite <- !app_assoc. rewrite Hr'. cbn [app]. exact Hrs.
  - apply orb_false_elim in E as [-> E]. apply N.leb_gt in E.
    exists p. split; [reflexivity|]. split; [exact HV|].
    split; [reflexivity|]. now right.
Qed.

Lemma V_write_large header payload p st st' :
  V p st -> len (p_frame p) <= maxsize ->
  acts (header ++ payload) st st' ->
  exists p', write_large_bytes header payload p = Some p' /\ V p' st' /\
             p_memo p' = p_memo p /\ p_frame p' = [].
Proof.
  intros HV Hlen Hacts. unfold write_large_bytes.
  destruct (V_commit true p st HV Hlen) as [p1 [Hc [HV1 [Hm Hf]]]].
  rewrite Hc. cbn.
  eexists. split; [reflexivity|]. split; [|split; [exact Hm|reflexivity]].
  destruct Hf as [Hf|[Hf _]]; [|discriminate].
  intros s rest Hs. cbn [p_frame p_out app] in *.
  destruct (frame_header_run st' s rest Hs) as [hs [Hhs Hrs]].
  exists hs. split; [exact Hhs|].
  destruct (HV1 [] (header ++ payload ++ hs ++ s ++ rest))
    as [hdr' [Hh' Hr']]; [rewrite Hf; vm_compute; discriminate|].
  rewrite Hf in Hh', Hr'. cbn in Hh'. injection Hh' as <-.
  cbn [app] in Hr'. rewrite <- !app_assoc. rewrite Hr'.
  rewrite app_assoc, Hacts. exact Hrs.
Qed.

Lemma V_same p q st :
  p_out p = p_out q -> p_frame p = p_frame q -> V p st -> V q st.
Proof.
  intros Ho Hf HV s rest. rewrite <- Ho, <- Hf. apply HV.
Qed.

Lemma save_counted_V short b4 b8 data v p st :
  (len data < 256 ->
   acts (short :: le_bytes 1 (len data) ++ data) st (push v st)) ->
  (len data < 4294967296 ->
   acts (b4 :: le_bytes 4 (len data) ++ data) st (push v st)) ->
  acts (b8 :: le_bytes 8 (len data) ++ data) st (push v st) ->
  V p st -> len (p_frame p) < FRAME_SIZE_TARGET -> len data <= maxsize ->
  exists p', save_counted short b4 b8 data p = Some p' /\
             V p' (push v st) /\ p_memo p' = p_memo p /\
             len (p_frame p') < 2 * FRAME_SIZE_TARGET + 8.
Proof.
  intros H1 H4 H8 HV Hframe Hmax. unfold save_counted.
  assert (HT : FRAME_SIZE_TARGET = 65536) by reflexivity.
  rewrite maxsize_val in Hmax. rewrite HT in Hframe.
  destruct (len data <=? 255) eqn:E1.
  { apply N.leb_le in E1. rewrite pack_fits by (rewrite pow_1; lia). cbn.
    eexists. split; [reflexivity|].
    split; [apply (V_write _ _ _ _ HV); apply H1; lia|].
    split; [reflexivity|].
    cbn [write p_frame]. len_simpl. rewrite HT. lia. }
  apply N.leb_gt in E1.
  destruct (4294967295 <? len data) eqn:E2.
  { apply N.ltb_lt in E2. rewrite pack_fits by (rewrite pow_8; lia). cbn.
    destruct (V_write_large (b8 :: le_bytes 8 (len data)) data p st (push v st))
      as [p' [Hw [HV' [Hm Hf]]]];
      [exact HV|rewrite maxsize_val; lia|exact H8|].
    exists p'. split; [exact Hw|]. split; [exact HV'|]. split; [exact Hm|].
    rewrite Hf. vm_compute. reflexivity. }
  apply N.ltb_ge in E2.
  destruct (FRAME_SIZE_TARGET <=? len data) eqn:E3.
  { rewrite pack_fits by (rewrite pow_4; lia). cbn.
    destruct (V_write_large (b4 :: le_bytes 4 (len data)) data p st (push v st))
      as [p' [Hw [HV' [Hm Hf]]]];
      [exact HV|rewrite maxsize_val; lia|apply H4; lia|].
    exists p'. split; [exact Hw|]. split; [exact HV'|]. split; [exact Hm|].
    rewrite Hf. vm_compute. reflexivity. }
  apply N.leb_gt in E3. rewrite HT in E3.
  rewrite pack_fits by (rewrite pow_4; lia). cbn.
  eexists. split; [reflexivity|].
  split; [apply (V_write _ _ _ _ HV); apply H4; lia|].
  split; [reflexivity|].
  cbn [write p_frame]. len_simpl. rewrite HT. lia.
Qed.

Lemma memo_index_lookup id pm i :
  memo_index id pm = Some i -> pm !! N.to_nat i = Some id.
Proof.
  revert i. induction pm as [|j pm IH]; intros i; cbn; [discriminate|].
  destruct (id =? j) eqn:E.
  - intros H. injection H as <-. apply N.eqb_eq in E. now subst.
  - destruct (memo_index id pm) as [i'|]; cbn; [|discriminate].
    intros H. injection H as <-. rewrite N2Nat.inj_succ. cbn. now apply IH.
Qed.

Lemma Inv_memoize items ms done o v p p1 st :
  Inv items ms done p st ->
  o ∈ items -> v = value_of o ->
  p_memo p1 = p_memo p ->
  V p1 (push v st) ->
  len (p_frame p1) < 2 * FRAME_SIZE_TARGET + 8 ->
  Inv items ms (done ++ [o]) (memoize (oid o) p1) (memoized v (push v st)).
Proof.
  intros HI Ho -> Hm HV Hf.
  assert (Hfresh : memo st !! N.of_nat (size (memo st)) = None).
  { destruct (memo st !! N.of_nat (size (memo st))) eqn:E; [|reflexivity].
    assert (Hs : is_Some (memo st !! N.of_nat (size (memo st)))) by eauto.
    apply (inv_dom _ _ _ _ _ HI) in Hs. rewrite (inv_size _ _ _ _ _ HI) in Hs.
    lia. }
  split.
  - apply (V_same (write [x94] p1)); [reflexivity|reflexivity|].
    apply (V_write _ _ _ _ HV).
    now apply (acts_memoize _ (value_of o) (stack st)).
  - cbn [memoize write p_frame]. rewrite len_app.
    change (len [x94]) with 1.
    assert (HT : FRAME_SIZE_TARGET = 65536) by reflexivity.
    rewrite HT in *. lia.
  - cbn. rewrite map_app, rev_app_distr. cbn.
    now rewrite (inv_stack _ _ _ _ _ HI).
  - cbn. apply (inv_meta _ _ _ _ _ HI).
  - cbn. rewrite map_size_insert_None by exact Hfresh.
    rewrite (inv_size _ _ _ _ _ HI), Hm, length_app. cbn. lia.
  - cbn. intros i Hi. rewrite Hm, length_app. cbn [length].
    destruct (decide (i = N.of_nat (size (memo st)))) as [->|Hne].
    + rewrite (inv_size _ _ _ _ _ HI). lia.
    + rewrite lookup_insert_ne in Hi by congruence.
      apply (inv_dom _ _ _ _ _ HI) in Hi. lia.
  - cbn. intros i id Hi. rewrite Hm in Hi.
    destruct (decide (i < length (p_memo p))%nat) as [Hlt|Hge].
    + rewrite lookup_app_l in Hi by exact Hlt.
      destruct (inv_memo _ _ _ _ _ HI i id Hi) as [o' [Ho' [Hid Hv]]].
      exists o'. split; [exact Ho'|]. split; [exact Hid|].
      rewrite lookup_insert_ne; [exact Hv|].
      rewrite (inv_size _ _ _ _ _ HI). lia.
    + rewrite lookup_app_r in Hi by lia.
      destruct (i - length (p_memo p))%nat as [|n] eqn:En; cbn in Hi;
        [|discriminate].
      injection Hi as <-. exists o. split; [exact Ho|]. split; [reflexivity|].
      replace i with (size (memo st))
        by (rewrite (inv_size _ _ _ _ _ HI); lia).
      apply lookup_insert_eq.
  - cbn. rewrite Hm, !length_app. cbn.
    pose proof (inv_len _ _ _ _ _ HI). lia.
Qed.

Lemma save_Inv items ms done o p st :
  consistent items -> o ∈ items -> wf_obj o ->
  N.of_nat (length done) < 4294967296 ->
  Inv items ms done p st ->
  exists p' st', save o p = Some p' /\ Inv items ms (done ++ [o]) p' st'.
Proof.
  intros Hcons Ho Hwf Hbound HI. unfold save.
  assert (HT : FRAME_SIZE_TARGET = 65536) by reflexivity.
  pose proof (inv_frame _ _ _ _ _ HI) as Hfr. rewrite HT in Hfr.
  destruct (V_commit false p st (inv_V _ _ _ _ _ HI))
    as [p1 [Hc [HV1 [Hm1 Hf1]]]];
    [rewrite maxsize_val; lia|].
  rewrite Hc. cbn.
  assert (Hframe1 : len (p_frame p1) < FRAME_SIZE_TARGET).
  { destruct Hf1 as [->|[_ [-> H]]]; [reflexivity|exact H]. }
  destruct (memo_index (oid o) (p_memo p1)) as [i|] eqn:Emi.
  - apply memo_index_lookup in Emi. rewrite Hm1 in Emi.
    destruct (inv_memo _ _ _ _ _ HI _ _ Emi) as [o' [Ho' [Hid Hv]]].
    rewrite N2Nat.id in Hv.
    assert (Hval : value_of o' = value_of o).
    { unfold value_of. now rewrite (Hcons o' o Ho' Ho Hid). }
    rewrite Hval in Hv.
    apply lookup_lt_Some in Emi.
    pose proof (inv_len _ _ _ _ _ HI) as Hlen.
    destruct (acts_get i (value_of o) st) as [hdr [Hg [Ha Hl]]];
      [lia|exact Hv|].
    rewrite Hg. cbn. exists (write hdr p1), (push (value_of o) st).
    split; [reflexivity|]. split.
    + apply (V_write _ _ _ _ HV1 Ha).
    + cbn [write p_frame]. len_simpl. rewrite HT in *. lia.
    + cbn. rewrite map_app, rev_app_distr. cbn.
      now rewrite (inv_stack _ _ _ _ _ HI).
    + cbn. apply (inv_meta _ _ _ _ _ HI).
    + cbn. rewrite Hm1. apply (inv_size _ _ _ _ _ HI).
    + cbn. rewrite Hm1. apply (inv_dom _ _ _ _ _ HI).
    + cbn. rewrite Hm1. apply (inv_memo _ _ _ _ _ HI).
    + cbn. rewrite Hm1, length_app. cbn. lia.
  - unfold wf_obj in Hwf.
    destruct (oval o) as [s|b] eqn:Eo.
    + destruct Hwf as [Hstr Henc].
      destruct (Utf8Facts.encode_str s Hstr) as [enc He].
      unfold save_str. rewrite He. cbn.
      pose proof (Utf8Facts.decode_encode true s enc He) as Hdec.
      specialize (Henc enc He). unfold is_bytes in Henc.
      destruct (save_counted_V x8c x58 x8d enc (PStr s) p1 st)
        as [p2 [Hs [HV2 [Hm2 Hf2]]]]; try assumption.
      * intros H. apply (acts_counted_unicode 1 x8c SHORT_BINUNICODE);
          try reflexivity; assumption.
      * intros H. apply (acts_counted_unicode 4 x58 BINUNICODE);
          try reflexivity; assumption.
      * apply (acts_counted_unicode 8 x8d BINUNICODE8);
          try reflexivity; try assumption.
        rewrite pow_8. rewrite maxsize_val in Henc. lia.
      * rewrite Hs. cbn. eexists _, _. split; [reflexivity|].
        apply (Inv_memoize items ms done o (PStr s) p p2 st HI Ho).
        -- unfold value_of. now rewrite Eo.
        -- congruence.
        -- exact HV2.
        -- exact Hf2.
    + unfold is_bytes in Hwf. unfold save_bytes.
      destruct (save_counted_V x43 x42 x8e b (PBytes b) p1 st)
        as [p2 [Hs [HV2 [Hm2 Hf2]]]]; try assumption.
      * intros H. apply (acts_counted_bytes 1 x43 SHORT_BINBYTES);
          try reflexivity; assumption.
      * intros H. apply (acts_counted_bytes 4 x42 BINBYTES);
          try reflexivity; assumption.
      * apply (acts_counted_bytes 8 x8e BINBYTES8);
          try reflexivity; try assumption.
        rewrite pow_8. rewrite maxsize_val in Hwf. lia.
      * rewrite Hs. cbn. eexists _, _. split; [reflexivity|].
        apply (Inv_memoize items ms done o (PBytes b) p p2 st HI Ho).
        -- unfold value_of. now rewrite Eo.
        -- congruence.
        -- exact HV2.
        -- exact Hf2.
Qed.

Lemma save_all_Inv items ms todo :
  forall done p st,
    consistent items ->
    (forall o, o ∈ todo -> o ∈ items /\ wf_obj o) ->
    N.of_nat (length done + length todo) < 4294967296 ->
    Inv items ms done p st ->
    exists p' st', save_all todo p = Some p' /\
                   Inv items ms (done ++ todo) p' st'.
Proof.
  induction todo as [|o todo IH]; intros done p st Hcons Hall Hbound HI.
  - exists p, st. rewrite app_nil_r. now split.
  - cbn [save_all].
    destruct (Hall o (list_elem_of_here _ _)) as [Ho Hwf].
    cbn [length] in Hbound.
    destruct (save_Inv items ms done o p st Hcons Ho Hwf)
      as [p1 [st1 [Hs HI1]]];
      [lia|exact HI|].
    rewrite Hs. cbn.
    destruct (IH (done ++ [o]) p1 st1 Hcons) as [p2 [st2 [Hs2 HI2]]].
    + intros o' Ho'. apply Hall. now apply list_elem_of_further.
    + rewrite length_app. cbn. lia.
    + exact HI1.
    + exists p2, st2. rewrite <- app_assoc in HI2. now split.
Qed.

Lemma finish p st v s :
  V p st -> stack st = v :: s -> len (p_frame p) + 1 <= maxsize ->
  exists p', commit_frame true (write [x2e] p) = Some p' /\
             loads (p_out p') = Some (inr v).
Proof.
  intros HV Hs Hlen.
  destruct (HV [x2e] []) as [hdr [Hh Hr]];
    [len_simpl; change (len []) with 0; lia|].
  unfold commit_frame. cbn [orb write p_frame p_out]. rewrite Hh. cbn.
  eexists. split; [reflexivity|]. cbn [p_out].
  unfold loads, loads_outcome.
  fold (run_all vm0 (p_out p ++ hdr ++ p_frame p ++ [x2e])).
  rewrite app_nil_r in Hr. rewrite Hr.
  rewrite (run_all_stop st _ v); [reflexivity|].
  cbn. now rewrite Hs.
Qed.

Lemma memo_ids items ms done p st id i :
  Inv items ms done p st -> memo_index id (p_memo p) = Some i ->
  exists o, o ∈ items /\ oid o = id.
Proof.
  intros HI H. apply memo_index_lookup in H.
  destruct (inv_memo _ _ _ _ _ HI _ _ H) as [o [Ho [Hid _]]]. eauto.
Qed.

Lemma Inv_start items :
  Inv items [] [] {| p_out := [x80; x04]; p_frame := []; p_memo := [] |} vm0.
Proof.
  split; cbn; try reflexivity; try lia.
  - apply V_start.
  - intros i [v Hv]. now rewrite lookup_empty in Hv.
  - intros i id H. discriminate.
Qed.

Lemma tuple_tail p st st_t code v s tid :
  V p st -> acts [code] st st_t -> stack st_t = v :: s ->
  len (p_frame p) < 2 * FRAME_SIZE_TARGET + 16 ->
  exists p', commit_frame true (write [x2e] (memoize tid (write [code] p)))
             = Some p' /\ loads (p_out p') = Some (inr v).
Proof.
  intros HV Hact Hs Hf.
  apply (finish _ (memoized v st_t) v s).
  - apply (V_same (write [x94] (write [code] p))); [reflexivity|reflexivity|].
    apply (V_write _ _ st_t).
    + apply (V_write _ _ _ _ HV Hact).
    + apply (acts_memoize _ _ _ Hs).
  - exact Hs.
  - cbn [memoize write p_frame]. len_simpl. change (len []) with 0.
    assert (HT : FRAME_SIZE_TARGET = 65536) by reflexivity.
    rewrite HT in Hf. rewrite maxsize_val. lia.
Qed.

Lemma acts_mark st :
  acts [x28] st {| stack := []; metastack := stack st :: metastack st;
                   memo := memo st |}.
Proof. intros rest. now apply run_all_next. Qed.

(** Unpickling a pickled tuple of [str] and [bytes] objects gives the tuple
    of their values. *)
Lemma loads_dumps tid items :
  consistent items ->
  (forall o, o ∈ items -> wf_obj o /\ oid o <> tid) ->
  N.of_nat (length items) < 4294967296 ->
  exists payload,
    dumps tid items = Some payload /\
    loads payload = Some (inr (PTuple (map value_of items))).
Proof.
  intros Hcons Hall Hbound. unfold dumps.
  set (p0 := {| p_out := [x80; x04]; p_frame := []; p_memo := [] |}).
  change (commit_frame false p0) with (Some p0). cbn [mbind option_bind].
  assert (Hnomemo : forall ms done p st i,
             Inv items ms done p st -> memo_index tid (p_memo p) <> Some i).
  { intros ms done p st i HI H.
    destruct (memo_ids _ _ _ _ _ _ _ HI H) as [o [Ho Hid]].
    now destruct (Hall o Ho). }
  assert (Hin : forall o, o ∈ items -> o ∈ items /\ wf_obj o).
  { intros o Ho. split; [exact Ho|]. now destruct (Hall o Ho). }
  unfold save_tuple.
  destruct items as [|o1 others] eqn:Eitems.
  { cbn [map].
    destruct (finish (write [x29] p0) (push (PTuple []) vm0) (PTuple []) [])
      as [p' [Hc Hl]].
    - apply (V_write _ _ vm0); [apply V_start|].
      intros rest. now apply run_all_next.
    - reflexivity.
    - vm_compute. discriminate.
    - cbn [mbind option_bind]. rewrite Hc. cbn. eauto. }
  rewrite <- Eitems in *.
  destruct (length items <=? 3)%nat eqn:Elen.
  - destruct (save_all_Inv items [] items [] p0 vm0 Hcons Hin)
      as [p1 [st1 [Hs HI]]]; [cbn; lia|apply Inv_start|].
    cbn [app] in HI. rewrite Hs. cbn [mbind option_bind].
    destruct (memo_index tid (p_memo p1)) as [i|] eqn:Emi;
      [now destruct (Hnomemo _ _ _ _ i HI)|].
    pose proof (inv_stack _ _ _ _ _ HI) as Hst.
    assert (Hact : exists st_t,
               acts [tuple_code (length items)] st1 st_t /\
               stack st_t = [PTuple (map value_of items)]).
    { apply Nat.leb_le in Elen. rewrite Eitems in *.
      destruct others as [|o2 [|o3 [|o4 others]]]; cbn in Elen; try lia;
        cbn in Hst; cbn [length tuple_code map].
      - eexists. split; [intros rest; apply run_all_next; cbn; rewrite Hst;
                         reflexivity|reflexivity].
      - eexists. split; [intros rest; apply run_all_next; cbn; rewrite Hst;
                         reflexivity|reflexivity].
      - eexists. split; [intros rest; apply run_all_next; cbn; rewrite Hst;
                         reflexivity|reflexivity]. }
    destruct Hact as [st_t [Hact Hstack]].
    destruct (tuple_tail p1 st1 st_t _ _ [] tid (inv_V _ _ _ _ _ HI) Hact Hstack
                (inv_frame _ _ _ _ _ HI)) as [p' [Hc Hl]].
    cbn [mbind option_bind]. rewrite Hc. cbn. eauto.
  - set (st_m := {| stack := []; metastack := [[]]; memo := ∅ |}).
    assert (HIm : Inv items [[]] [] (write [x28] p0) st_m).
    { split; cbn; try reflexivity; try lia.
      - apply (V_write _ _ vm0); [apply V_start|apply acts_mark].
      - intros i [v Hv]. now rewrite lookup_empty in Hv.
      - intros i id H. discriminate. }
    destruct (save_all_Inv items [[]] items [] (write [x28] p0) st_m Hcons Hin)
      as [p1 [st1 [Hs HI]]]; [cbn; lia|exact HIm|].
    cbn [app] in HI. rewrite Hs. cbn [mbind option_bind].
    destruct (memo_index tid (p_memo p1)) as [i|] eqn:Emi;
      [now destruct (Hnomemo _ _ _ _ i HI)|].
    pose proof (inv_stack _ _ _ _ _ HI) as Hst.
    pose proof (inv_meta _ _ _ _ _ HI) as Hmeta.
    destruct (tuple_tail p1 st1
                (push (PTuple (map value_of items))
                   {| stack := []; metastack := []; memo := memo st1 |})
                x74 (PTuple (map value_of items)) [] tid
                (inv_V _ _ _ _ _ HI)) as [p' [Hc Hl]].
    + intros rest. apply run_all_next. cbn [app step opcode_of_byte dispatch].
      unfold pop_mark. rewrite Hmeta, Hst, rev_involutive. reflexivity.
    + reflexivity.
    + apply (inv_frame _ _ _ _ _ HI).
    + cbn [mbind option_bind]. rewrite Hc. cbn. eauto.
Qed.

(** C6: decoding an encoded envelope gives the envelope back: for every
    five-field envelope of [str] and [bytes] objects, [pickle.dumps] of the
    tuple succeeds and [pickle.loads] of the result, unpacked into five
    names, yields the five values. *)
Theorem decode_encode_envelope tid
  (message_type encrypted_message nonce signature sig_nonce : obj) :
  let envelope :=
    [message_type; encrypted_message; nonce; signature; sig_nonce] in
  consistent envelope ->
  (forall o, o ∈ envelope -> wf_obj o /\ oid o <> tid) ->
  exists payload,
    dumps tid envelope = Some payload /\
    decode payload
    = Some (inr (value_of message_type, value_of encrypted_message,
                 value_of nonce, value_of signature, value_of sig_nonce)).
Proof.
  intros envelope Hcons Hall.
  destruct (loads_dumps tid envelope Hcons Hall) as [payload [Hd Hl]];
    [vm_compute; reflexivity|].
  exists payload. split; [exact Hd|].
  unfold decode. now rewrite Hl.
Qed.

(** The LEAVE of [bob] on the wire: the shared placeholder is written once
    and fetched from the memo twice. *)
Lemma dumps_leave :
  Pickle.dumps 0 Demo.leave_objects
  = Some [x80; x04; x95; x19; x00; x00; x00; x00; x00; x00; x00;
          x28; x8c; x05; x4c; x45; x41; x56; x45; x94;
          x43; x03; x62; x6f; x62; x94; x43; x00; x94;
          x68; x02; x68; x02; x74; x94; x2e].
Proof. vm_compute. reflexivity. Qed.

Lemma decode_encode_envelope_witness :
  exists payload,
    dumps 0 Demo.leave_objects = Some payload /\
    decode payload
    = Some (inr (PStr (lit "LEAVE"), PBytes (list_byte_of_string "bob"),
                 PBytes [], PBytes [], PBytes [])).
Proof.
  apply (decode_encode_envelope 0
           {| oid := 1; oval := AStr (lit "LEAVE") |}
           {| oid := 2; oval := ABytes (list_byte_of_string "bob") |}
           {| oid := 3; oval := ABytes [] |}
           {| oid := 3; oval := ABytes [] |}
           {| oid := 3; oval := ABytes [] |}).
  - intros o1 o2 H1 H2 Hid.
    repeat (apply elem_of_cons in H1 as [->|H1]);
      try (now apply not_elem_of_nil in H1);
      repeat (apply elem_of_cons in H2 as [->|H2]);
      try (now apply not_elem_of_nil in H2);
      try reflexivity; discriminate Hid.
  - intros o Ho.
    repeat (apply elem_of_cons in Ho as [->|Ho]);
      try (now apply not_elem_of_nil in Ho);
      (split; [|discriminate]).
    2-5: (intros Hgt; vm_compute in Hgt; discriminate Hgt).
    split; [repeat constructor|].
    intros enc He. vm_compute in He. injection He as <-.
    intros Hgt. vm_compute in Hgt. discriminate Hgt.
Defined.

End PickleFacts.

(** ** The receive loop *)

Module ClientFacts.
Import Py Client Utf8Facts.

Ltac engine_unfold :=
  unfold mbind, engine_bind, bind, lift, mret, engine_ret, ret, raise,
    peers, set_peers in *.

(** When the local username holds no ": ", the plaintexts the CHAT branch
    takes for its own are those whose sender field is the local username. *)
Lemma own_prefix_is_sender (username raw : str) :
  no_separator username = true ->
  startswith raw (username ++ lit ": ") = true ->
  split_head (lit ": ") raw = username.
Proof.
  revert raw. induction username as [|c u IH]; intros raw Hno H.
  - cbn [app] in H. destruct raw as [|d raw]; [discriminate|].
    cbn [split_head]. now rewrite H.
  - destruct raw as [|d raw]; [discriminate|].
    cbn [no_separator] in Hno. apply andb_prop in Hno as [Hc Hno].
    cbn [app startswith] in H. apply andb_prop in H as [Hcd H].
    apply N.eqb_eq in Hcd. subst d.
    cbn [split_head].
    assert (Hs : startswith (c :: raw) (lit ": ") = false).
    { apply negb_true_iff in Hc.
      change (lit ": ") with [58; 32] in *.
      destruct u as [|d u]; cbn [app] in H.
      - destruct raw as [|r raw]; [discriminate|].
        cbn [startswith] in H |- *. apply andb_prop in H as [Hr _].
        apply N.eqb_eq in Hr. subst r. now rewrite andb_false_r.
      - destruct raw as [|r raw]; [discriminate|].
        cbn [startswith] in H, Hc |- *. apply andb_prop in H as [Hr _].
        apply N.eqb_eq in Hr. subst r.
        assert (Hnil : forall l : str, startswith l [] = true)
          by (intros l; now destruct l).
        rewrite Hnil in Hc |- *. exact Hc. }
    rewrite Hs. f_equal. now apply IH.
Qed.

(** Closes a goal saying that a list of at most one line, not a displayed
    message, holds no displayed message. *)
Ltac no_display :=
  first [ apply not_elem_of_nil
        | let H := fresh in
          intros H; apply list_elem_of_singleton in H; discriminate ].

Section Receive.
Context {pubkey : Type} `{!Collaborators pubkey}.
Variable username : str.

(** *** Printing *)

Lemma written_text o s :
  text_of o = inr s -> is_text s -> written o = inr tt.
Proof.
  intros Ht Hs. unfold written. rewrite Ht.
  destruct (encode_text s Hs) as [b ->]. reflexivity.
Qed.

Lemma written_display raw message :
  encode_utf8 raw = inr message -> written (Display raw) = inr tt.
Proof.
  unfold encode_utf8, written. cbn [text_of].
  now destruct (Utf8.encode false raw).
Qed.

Lemma is_text_lit (s : string) : is_ascii (lit s) = true -> is_text (lit s).
Proof. apply ascii_is_text. Qed.

Lemma written_welcome u : is_text u -> written (Welcome u) = inr tt.
Proof.
  intros Hu.
  apply (written_text (Welcome u)
           (lit "Welcome " ++ u ++ lit " to the chat!") eq_refl).
  apply is_text_app; [now apply is_text_lit|].
  apply is_text_app; [exact Hu|now apply is_text_lit].
Qed.

Lemma written_has_left u : is_text u -> written (HasLeft u) = inr tt.
Proof.
  intros Hu.
  apply (written_text (HasLeft u) (u ++ lit " has left the chat.") eq_refl).
  apply is_text_app; [exact Hu|now apply is_text_lit].
Qed.

(** A line of fixed text around [u] is written exactly when [u] is text. *)
Lemma written_welcome_cases u :
  written (Welcome u)
  = if bool_decide (is_Some (Utf8.encode false u)) then inr tt
    else inl (Exception "UnicodeEncodeError").
Proof.
  destruct (bool_decide (is_Some (Utf8.encode false u))) eqn:E.
  - apply bool_decide_eq_true in E. destruct E as [b E].
    apply written_welcome. now apply (encode_is_text u b).
  - apply bool_decide_eq_false in E.
    unfold written. cbn [text_of].
    rewrite encode_not_text; [reflexivity|].
    intros Ht. apply E.
    apply Forall_app in Ht as [_ Ht]. apply Forall_app in Ht as [Ht _].
    destruct (encode_text u Ht) as [b Hb]. now exists b.
Qed.

Lemma decode_utf8_text e u : decode_utf8 e = inr u -> is_text u.
Proof.
  unfold decode_utf8. destruct e; try discriminate;
    (destruct (Utf8.decode false b) as [s|] eqn:E; [|discriminate]);
    intros [= <-]; now apply (decode_is_text b).
Qed.

Lemma print_written o (st : state pubkey) :
  written o = inr tt ->
  print o st = (inr tt, {| known_peers := known_peers st;
                           console := console st ++ [o] |}).
Proof. intros H. unfold print. now rewrite H. Qed.

Lemma print_raises o e (st : state pubkey) :
  written o = inl e -> print o st = (inl e, st).
Proof. intros H. unfold print. now rewrite H. Qed.

(** A [print] shows the line or nothing, and leaves the directory. *)
Lemma print_state o (st : state pubkey) :
  snd (print o st)
  = {| known_peers := known_peers st; console := console st ++ shows o |}.
Proof.
  unfold print, shows. destruct (written o) as [e|[]]; cbn.
  - destruct st. cbn. now rewrite app_nil_r.
  - reflexivity.
Qed.

Lemma print_result o (st : state pubkey) : fst (print o st) = written o.
Proof. unfold print. now destruct (written o) as [e|[]]. Qed.

Lemma shows_written o : written o = inr tt -> shows o = [o].
Proof. intros H. unfold shows. now rewrite H. Qed.

Lemma shows_length o : (length (shows o) <= 1)%nat.
Proof. unfold shows. destruct (written o) as [e|[]]; cbn; lia. Qed.

(** *** The body of the [try] and its handlers *)

Lemma dispatch_chat e n s sn :
  dispatch username (PStr (lit "CHAT"), e, n, s, sn) = on_chat username e n s.
Proof. reflexivity. Qed.

Lemma dispatch_join e n s sn :
  dispatch username (PStr (lit "JOIN"), e, n, s, sn) = on_join e n s sn.
Proof. reflexivity. Qed.

Lemma dispatch_leave e n s sn :
  dispatch username (PStr (lit "LEAVE"), e, n, s, sn) = on_leave e.
Proof. reflexivity. Qed.

Lemma try_body_decoded payload envelope (st0 st : state pubkey) :
  decode payload st0 = (inr envelope, st) ->
  try_body username (Datagram payload) st0 = dispatch username envelope st.
Proof.
  intros H. unfold try_body. engine_unfold. now rewrite H.
Qed.

Lemma try_body_undecoded payload e (st0 st : state pubkey) :
  decode payload st0 = (inl e, st) ->
  try_body username (Datagram payload) st0 = (inl e, st).
Proof.
  intros H. unfold try_body. engine_unfold. now rewrite H.
Qed.

(** Data unpacks, or fails to, the same way in every state. *)
Lemma decode_plain payload r (st : state pubkey) :
  plain payload r ->
  decode payload st
  = (match r with inr v => unpack5 v | inl e => inl e end, st).
Proof.
  intros Hp. unfold decode. engine_unfold. rewrite (Hp st).
  destruct r as [e|v]; [reflexivity|]. now destruct (unpack5 v).
Qed.

Lemma decodes_plain payload v envelope :
  plain payload (inr v) -> unpack5 v = inr envelope ->
  decodes payload envelope.
Proof.
  intros Hp Hv st. rewrite (decode_plain _ _ st Hp). now rewrite Hv.
Qed.

Lemma printed_app (st : state pubkey) (l : list output) d :
  printed st {| known_peers := d; console := console st ++ l |} = l.
Proof. unfold printed. cbn. now rewrite drop_app_length. Qed.

Lemma printed_refl (st : state pubkey) : printed st st = [].
Proof. unfold printed. now rewrite drop_all. Qed.

(** What each handler of the [try] does with the outcome of the body. *)
Lemma listen_iteration_ok ev (st st' : state pubkey) :
  try_body username ev st = (inr tt, st') ->
  listen_iteration username ev st = (Running, st').
Proof. intros H. unfold listen_iteration. now rewrite H. Qed.

Lemma listen_iteration_oserror ev errno (st st' : state pubkey) :
  try_body username ev st = (inl (OSError errno), st') ->
  listen_iteration username ev st = (Running, st').
Proof.
  intros H. unfold listen_iteration. rewrite H.
  now destruct (errno =? EBADF)%Z.
Qed.

Lemma listen_iteration_exception ev name (st st' : state pubkey) :
  try_body username ev st = (inl (Exception name), st') ->
  listen_iteration username ev st
  = (Stopped,
     {| known_peers := known_peers st';
        console := console st' ++ shows (ErrorReceiving (Exception name)) |}).
Proof.
  intros H. unfold listen_iteration. rewrite H. now rewrite print_state.
Qed.

(** The handlers leave the directory as the body left it and add at most the
    error line. *)
Lemma listen_iteration_handlers ev (st : state pubkey) :
  let r := try_body username ev st in
  let st' := snd (listen_iteration username ev st) in
  known_peers st' = known_peers (snd r) /\
  exists log, console st' = console (snd r) ++ log /\
              (length log <= 1)%nat /\
              (fst r = inr tt -> log = []) /\
              forall m, Display m ∉ log.
Proof.
  cbn zeta. unfold listen_iteration.
  destruct (try_body username ev st) as [[[errno|name]|[]] st'] eqn:E; cbn.
  - destruct (errno =? EBADF)%Z; cbn; split; [reflexivity| |reflexivity|];
      exists []; rewrite app_nil_r;
      (repeat split; [cbn; lia|intros m; apply not_elem_of_nil]).
  - rewrite print_state. cbn. split; [reflexivity|].
    eexists; split; [reflexivity|]. split; [apply shows_length|].
    split; [discriminate|].
    intros m Hm. unfold shows in Hm.
    destruct (written (ErrorReceiving (Exception name))) as [e|[]].
    + now apply not_elem_of_nil in Hm.
    + apply list_elem_of_singleton in Hm. discriminate.
  - split; [reflexivity|]. exists []. rewrite app_nil_r.
    repeat split; [cbn; lia|intros m; apply not_elem_of_nil].
Qed.

(** *** The three branches, run on a state *)

Lemma on_join_run e n s sn u k (st : state pubkey) :
  unpack_data e n = inr u -> unpack_data_key s sn = inr k ->
  on_join e n s sn st
  = match known_peers st !! u with
    | None => (written (Welcome u),
               {| known_peers := <[u := k]> (known_peers st);
                  console := console st ++ shows (Welcome u) |})
    | Some _ => (inr tt, st)
    end.
Proof.
  intros Hu Hk. unfold on_join. engine_unfold. rewrite Hu, Hk. cbn.
  destruct (known_peers st !! u); [reflexivity|]. cbn.
  rewrite (surjective_pairing (print _ _)), print_result, print_state.
  reflexivity.
Qed.

Lemma on_leave_run e u (st : state pubkey) :
  decode_utf8 e = inr u ->
  on_leave e st
  = (inr tt,
     {| known_peers := match known_peers st !! u with
                       | Some _ => delete u (known_peers st)
                       | None => known_peers st
                       end;
        console := console st ++ [HasLeft u] |}).
Proof.
  intros Hu. unfold on_leave. engine_unfold. rewrite Hu. cbn.
  rewrite (print_written _ _ (written_has_left _ (decode_utf8_text _ _ Hu))).
  cbn. now destruct (known_peers st !! u).
Qed.

Lemma on_chat_cases e n s (st : state pubkey) :
  on_chat username e n s st
  = match unpack_data e n with
    | inl err => (inl err, st)
    | inr raw =>
      if startswith raw (username ++ lit ": ") then (inr tt, st)
      else match known_peers st !! split_head (lit ": ") raw with
           | None => (inr tt, st)
           | Some key =>
             match encode_utf8 raw with
             | inl err => (inl err, st)
             | inr message =>
               if verify_signature key s message
               then (inr tt, {| known_peers := known_peers st;
                                console := console st ++ [Display raw] |})
               else (inr tt, st)
             end
           end
    end.
Proof.
  unfold on_chat. engine_unfold.
  destruct (unpack_data e n) as [err|raw]; cbn; [reflexivity|].
  destruct (startswith raw (username ++ lit ": ")); cbn; [reflexivity|].
  destruct (known_peers st !! split_head (lit ": ") raw) as [key|];
    cbn; [|reflexivity].
  destruct (encode_utf8 raw) as [err|message] eqn:Henc; cbn; [reflexivity|].
  destruct (verify_signature key s message); [|reflexivity].
  apply print_written. now apply (written_display raw message).
Qed.

(** The CHAT branch never writes to the directory, whatever it is given. *)
Lemma on_chat_peers e n s (st : state pubkey) :
  known_peers (snd (on_chat username e n s st)) = known_peers st.
Proof.
  rewrite on_chat_cases.
  destruct (unpack_data e n) as [err|raw]; [reflexivity|].
  destruct (startswith raw (username ++ lit ": ")); [reflexivity|].
  destruct (known_peers st !! split_head (lit ": ") raw) as [key|];
    [|reflexivity].
  destruct (encode_utf8 raw) as [err|message]; [reflexivity|].
  now destruct (verify_signature key s message).
Qed.

Lemma eq_lit_true v lt : eq_lit v lt = true -> v = PStr (lit lt).
Proof.
  destruct v; cbn; try discriminate.
  intros H. apply bool_decide_eq_true in H. now subst.
Qed.

Lemma eq_lit_false v lt : v <> PStr (lit lt) -> eq_lit v lt = false.
Proof.
  intros Hne. destruct v; try reflexivity. cbn.
  apply bool_decide_eq_false. intros ->. now apply Hne.
Qed.

(** What the body of the [try] does to the directory once the datagram is
    unpacked: nothing, the insertion of a JOIN for an absent username, or
    the removal a LEAVE asks for. *)
Lemma dispatch_directory envelope (st : state pubkey) :
  let d := known_peers st in
  let d' := known_peers (snd (dispatch username envelope st)) in
  d' = d \/
  (exists e n s sn u k,
     envelope = (PStr (lit "JOIN"), e, n, s, sn) /\
     unpack_data e n = inr u /\ unpack_data_key s sn = inr k /\
     d !! u = None /\ d' = <[u := k]> d) \/
  (exists e n s sn u,
     envelope = (PStr (lit "LEAVE"), e, n, s, sn) /\
     decode_utf8 e = inr u /\ d' = delete u d).
Proof.
  cbn zeta. destruct envelope as [[[[mt e] n] s] sn]. unfold dispatch.
  destruct (eq_lit mt "CHAT") eqn:Hchat.
  { rewrite on_chat_peers. now left. }
  destruct (eq_lit mt "JOIN") eqn:Hjoin.
  { apply eq_lit_true in Hjoin. subst mt.
    destruct (unpack_data e n) as [err|u] eqn:Hu;
      [unfold on_join; engine_unfold; rewrite Hu; now left|].
    destruct (unpack_data_key s sn) as [err|k] eqn:Hk;
      [unfold on_join; engine_unfold; rewrite Hu, Hk; now left|].
    rewrite (on_join_run _ _ _ _ _ _ _ Hu Hk).
    destruct (known_peers st !! u) eqn:Hl; [now left|].
    right. left. now exists e, n, s, sn, u, k. }
  destruct (eq_lit mt "LEAVE") eqn:Hleave.
  { apply eq_lit_true in Hleave. subst mt.
    destruct (decode_utf8 e) as [err|u] eqn:Hu;
      [unfold on_leave; engine_unfold; rewrite Hu; now left|].
    rewrite (on_leave_run _ _ _ Hu). cbn.
    destruct (known_peers st !! u) eqn:Hl; [|now left].
    right. right. now exists e, n, s, sn, u. }
  left. now rewrite print_state.
Qed.

(** One turn of the loop on a datagram that is data. *)
Lemma try_body_plain payload r (st : state pubkey) :
  plain payload r ->
  try_body username (Datagram payload) st
  = match r with
    | inl e => (inl e, st)
    | inr v => match unpack5 v with
               | inl e => (inl e, st)
               | inr envelope => dispatch username envelope st
               end
    end.
Proof.
  intros Hp. unfold try_body. engine_unfold.
  rewrite (decode_plain _ _ st Hp).
  destruct r as [e|v]; [reflexivity|]. now destruct (unpack5 v).
Qed.

(** An absent username stays absent through one turn of the loop on data
    unless the turn processes a JOIN announcing it. *)
Lemma iteration_keeps_absent u ev (st : state pubkey) :
  data_only ev ->
  known_peers st !! u = None -> ~ announces ev u ->
  known_peers (snd (listen_iteration username ev st)) !! u = None.
Proof.
  intros Hdata Habs Hann.
  destruct (listen_iteration_handlers ev st) as [-> _].
  destruct ev as [payload|err]; [|exact Habs].
  destruct Hdata as [r Hp]. rewrite (try_body_plain _ _ _ Hp).
  destruct r as [err|v]; [exact Habs|].
  destruct (unpack5 v) as [err|envelope] eqn:Hv; [exact Habs|].
  destruct (dispatch_directory envelope st)
    as [->|[(e & n & s & sn & u' & k & -> & Hu & Hk & Hl & ->)
           |(e & n & s & sn & u' & -> & Hu & ->)]].
  - exact Habs.
  - rewrite lookup_insert_ne; [exact Habs|].
    intros ->. apply Hann. exists payload, e, n, s, sn.
    split; [reflexivity|]. split; [|exact Hu].
    now apply (decodes_plain _ v).
  - destruct (decide (u' = u)) as [->|Hne].
    + apply lookup_delete_eq.
    + now rewrite lookup_delete_ne.
Qed.

(** C1, as amended: a datagram whose structural decoding raises an
    [Exception] that is not an [OSError] (truncated pickle, wrong arity, a
    value that cannot be unpacked) ends the receive loop, after the error
    line when that line can be written: no later datagram is processed.
    The directory is as the decoding left it, which for a payload that is
    data is as it was. *)
Theorem undecodable_datagram_ends_loop payload name evs
    (st st1 : state pubkey) :
  decode payload st = (inl (Exception name), st1) ->
  listen_for_messages username (Datagram payload :: evs) st
  = (Stopped,
     {| known_peers := known_peers st1;
        console := console st1 ++ shows (ErrorReceiving (Exception name)) |})
  /\ (written (ErrorReceiving (Exception name)) = inr tt ->
      shows (ErrorReceiving (Exception name))
      = [ErrorReceiving (Exception name)])
  /\ ((exists r, plain payload r) -> st1 = st).
Proof.
  intros Hdec. split; [|split].
  - cbn [listen_for_messages].
    now rewrite (listen_iteration_exception _ _ _ _
                   (try_body_undecoded _ _ _ _ Hdec)).
  - apply shows_written.
  - intros [r Hp]. rewrite (decode_plain _ _ st Hp) in Hdec.
    now injection Hdec.
Qed.

(** C7, as amended: an [OSError] raised by [recvfrom], EBADF after the socket
    has been closed or any other errno, is swallowed: nothing is printed,
    the directory is unchanged, and the loop goes on with its next turn. *)
Theorem oserror_keeps_loop_running errno evs (st : state pubkey) :
  listen_for_messages username (RecvRaises (OSError errno) :: evs) st
  = listen_for_messages username evs st.
Proof.
  cbn [listen_for_messages].
  now rewrite (listen_iteration_oserror (RecvRaises (OSError errno)) errno
                 st st eq_refl).
Qed.

(** C2, as amended: the local username stays out of the directory through
    any sequence of received datagrams that are data (their unpickling
    calls nothing) none of which is a JOIN announcing it; the loop has no
    filter of its own, so a JOIN that does announce the local username,
    such as the peer's own one coming back from the multicast group,
    enters it like any other. *)
Theorem local_username_absent_without_own_join evs (st : state pubkey) :
  known_peers st !! username = None ->
  (forall ev, ev ∈ evs -> data_only ev) ->
  (forall ev, ev ∈ evs -> ~ announces ev username) ->
  known_peers (snd (listen_for_messages username evs st)) !! username = None
  /\ forall payload e n s sn k,
       decodes payload (PStr (lit "JOIN"), e, n, s, sn) ->
       unpack_data e n = inr username ->
       unpack_data_key s sn = inr k ->
       known_peers (snd (listen_iteration username (Datagram payload) st))
         !! username = Some k.
Proof.
  intros Habs Hdata Hnone. split.
  - revert st Habs. induction evs as [|ev evs' IH]; intros st Habs.
    + exact Habs.
    + cbn [listen_for_messages].
      assert (Hstep := iteration_keeps_absent username ev st
                         (Hdata ev (list_elem_of_here _ _)) Habs
                         (Hnone ev (list_elem_of_here _ _))).
      destruct (listen_iteration username ev st) as [[|] st']; cbn in Hstep.
      * apply IH; [| |exact Hstep].
        -- intros ev' Hin. apply Hdata. now apply list_elem_of_further.
        -- intros ev' Hin. apply Hnone. now apply list_elem_of_further.
      * exact Hstep.
  - intros payload e n s sn k Hdec Hu Hk.
    destruct (listen_iteration_handlers (Datagram payload) st) as [-> _].
    rewrite (try_body_decoded _ _ _ _ (Hdec st)), dispatch_join.
    rewrite (on_join_run _ _ _ _ _ _ _ Hu Hk). rewrite Habs. cbn.
    apply lookup_insert_eq.
Qed.


(** The directory after one turn of the loop on a JOIN that decrypts to
    [(u, k)]. *)
Lemma listen_iteration_join_directory payload e n s sn u k
    (st0 st : state pubkey) :
  decode payload st0 = (inr (PStr (lit "JOIN"), e, n, s, sn), st) ->
  unpack_data e n = inr u -> unpack_data_key s sn = inr k ->
  known_peers (snd (listen_iteration username (Datagram payload) st0))
  = match known_peers st !! u with
    | None => <[u := k]> (known_peers st)
    | Some _ => known_peers st
    end.
Proof.
  intros Hdec Hu Hk.
  destruct (listen_iteration_handlers (Datagram payload) st0) as [-> _].
  rewrite (try_body_decoded _ _ _ _ Hdec), dispatch_join.
  rewrite (on_join_run _ _ _ _ _ _ _ Hu Hk).
  now destruct (known_peers st !! u).
Qed.

(** One turn of the loop on a JOIN that decrypts to [(u, k)], when the
    welcome can be written. *)
Lemma listen_iteration_join payload e n s sn u k (st0 st : state pubkey) :
  decode payload st0 = (inr (PStr (lit "JOIN"), e, n, s, sn), st) ->
  unpack_data e n = inr u -> unpack_data_key s sn = inr k ->
  written (Welcome u) = inr tt ->
  listen_iteration username (Datagram payload) st0
  = (Running,
     match known_peers st !! u with
     | None => {| known_peers := <[u := k]> (known_peers st);
                  console := console st ++ [Welcome u] |}
     | Some _ => st
     end).
Proof.
  intros Hdec Hu Hk Hw. apply listen_iteration_ok.
  rewrite (try_body_decoded _ _ _ _ Hdec), dispatch_join.
  rewrite (on_join_run _ _ _ _ _ _ _ Hu Hk).
  rewrite (shows_written _ Hw), Hw.
  now destruct (known_peers st !! u).
Qed.

(** One turn of the loop on a LEAVE naming [u]. *)
Lemma listen_iteration_leave payload e n s sn u (st0 st : state pubkey) :
  decode payload st0 = (inr (PStr (lit "LEAVE"), e, n, s, sn), st) ->
  decode_utf8 e = inr u ->
  listen_iteration username (Datagram payload) st0
  = (Running,
     {| known_peers := match known_peers st !! u with
                       | Some _ => delete u (known_peers st)
                       | None => known_peers st
                       end;
        console := console st ++ [HasLeft u] |}).
Proof.
  intros Hdec Hu. apply listen_iteration_ok.
  rewrite (try_body_decoded _ _ _ _ Hdec), dispatch_leave.
  apply (on_leave_run _ _ _ Hu).
Qed.

(** C4: after a JOIN carrying [(u, k)] for a username not yet in the
    directory, [u] maps to [k]; a JOIN for a username already there leaves
    its entry as it is, so a second JOIN for [u] with another key changes
    nothing.  The directory the JOIN finds is the one its decoding has
    left. *)
Theorem join_adds_once payload e n s sn u k (st0 st : state pubkey) :
  decode payload st0 = (inr (PStr (lit "JOIN"), e, n, s, sn), st) ->
  unpack_data e n = inr u -> unpack_data_key s sn = inr k ->
  let st1 := snd (listen_iteration username (Datagram payload) st0) in
  (known_peers st !! u = None -> known_peers st1 !! u = Some k) /\
  (forall k0, known_peers st !! u = Some k0 ->
              known_peers st1 !! u = Some k0) /\
  (forall payload' e' n' s' sn' k' st2,
     decode payload' st1 = (inr (PStr (lit "JOIN"), e', n', s', sn'), st2) ->
     known_peers st2 !! u = known_peers st1 !! u ->
     unpack_data e' n' = inr u -> unpack_data_key s' sn' = inr k' ->
     known_peers (snd (listen_iteration username (Datagram payload') st1))
       !! u = known_peers st1 !! u).
Proof.
  intros Hdec Hu Hk st1. subst st1.
  rewrite (listen_iteration_join_directory _ _ _ _ _ _ _ _ _ Hdec Hu Hk).
  assert (Hin : is_Some (match known_peers st !! u with
                         | None => <[u := k]> (known_peers st)
                         | Some _ => known_peers st
                         end !! u)).
  { destruct (known_peers st !! u) as [k0|] eqn:Hl.
    - now exists k0.
    - exists k. apply lookup_insert_eq. }
  split; [|split].
  - intros Habs. rewrite Habs. apply lookup_insert_eq.
  - intros k0 Hk0. now rewrite Hk0.
  - intros payload' e' n' s' sn' k' st2 Hdec' Hsame Hu' Hk'.
    rewrite (listen_iteration_join_directory _ _ _ _ _ _ _ _ _ Hdec' Hu' Hk').
    rewrite <- Hsame in Hin |- *. destruct Hin as [k1 Hk1].
    now rewrite Hk1.
Qed.

(** C5: after a LEAVE naming [u] the directory has no entry for [u]; when
    [u] was not in the directory, the directory is unchanged; the entries
    of the other usernames are never touched.  The directory the LEAVE
    finds is the one its decoding has left. *)
Theorem leave_removes payload e n s sn u (st0 st : state pubkey) :
  decode payload st0 = (inr (PStr (lit "LEAVE"), e, n, s, sn), st) ->
  decode_utf8 e = inr u ->
  let st' := snd (listen_iteration username (Datagram payload) st0) in
  known_peers st' !! u = None /\
  (known_peers st !! u = None -> known_peers st' = known_peers st) /\
  (forall v, v <> u -> known_peers st' !! v = known_peers st !! v).
Proof.
  intros Hdec Hu st'. subst st'.
  rewrite (listen_iteration_leave _ _ _ _ _ _ _ _ Hdec Hu). cbn.
  destruct (known_peers st !! u) as [k|] eqn:Hl.
  - split; [apply lookup_delete_eq|]. split; [discriminate|].
    intros v Hv. now apply lookup_delete_ne.
  - split; [exact Hl|]. split; [reflexivity|]. intros v _. reflexivity.
Qed.

(** C9: a LEAVE naming [u] always prints "<u> has left the chat.", and only
    that, whether or not [u] is in the directory. *)
Theorem leave_always_prints payload e n s sn u (st0 st : state pubkey) :
  decode payload st0 = (inr (PStr (lit "LEAVE"), e, n, s, sn), st) ->
  decode_utf8 e = inr u ->
  let st' := snd (listen_iteration username (Datagram payload) st0) in
  printed st st' = [HasLeft u] /\
  line (HasLeft u) = Some (u ++ lit " has left the chat.").
Proof.
  intros Hdec Hu st'. subst st'.
  rewrite (listen_iteration_leave _ _ _ _ _ _ _ _ Hdec Hu). cbn [snd].
  split; [apply printed_app | reflexivity].
Qed.

End Receive.
(** *** The loop on concrete traffic *)

Import Demo.

(** With the stand-in every payload is data, and the client decodes with
    the pickle model where the model decides. *)
Lemma demo_plain (payload : bytes) : plain payload (unpickle payload).
Proof. intros st. reflexivity. Qed.

Lemma demo_decode (payload : bytes) (st : state bytes) :
  decode payload st
  = (match unpickle payload with
     | inr v => unpack5 v
     | inl e => inl e
     end, st).
Proof. apply decode_plain, demo_plain. Qed.

Lemma demo_decodes (payload : bytes) envelope :
  match unpickle payload with inr v => unpack5 v | inl e => inl e end
  = inr envelope ->
  decodes payload envelope.
Proof. intros H st. rewrite demo_decode. now rewrite H. Qed.

Lemma decode_is_pickle_decode (payload : bytes) r (st : state bytes) :
  Pickle.decode payload = Some r -> decode payload st = (r, st).
Proof.
  intros H. rewrite demo_decode. unfold Pickle.decode, unpickle in *.
  destruct (Pickle.loads payload) as [[e|v]|]; cbn in *; congruence.
Qed.

(** A tuple of three fields unpickles but does not unpack into five names. *)
Lemma wrong_arity_is_undecodable (st : state bytes) :
  decode (dumps [PStr (lit "JOIN"); PBytes []; PBytes []]) st
  = (inl (Exception "ValueError"), st).
Proof. rewrite demo_decode. vm_compute. reflexivity. Qed.

(** The session of the specification: alice joins, speaks, leaves; what she
    is made to say afterwards is dropped. *)
Lemma scenario :
  listen_for_messages bob
    [Datagram (join_from key_A "alice");
     Datagram (chat_from key_A "alice: hello");
     Datagram (leave_from "alice");
     Datagram (chat_from key_A "alice: again")] initial
  = (Running,
     {| known_peers := ∅;
        console := [Welcome alice; Display (lit "alice: hello");
                    HasLeft alice] |}).
Proof. vm_compute. reflexivity. Qed.


Lemma undecodable_datagram_ends_loop_witness :
  listen_for_messages bob [Datagram []; Datagram (join_from key_A "alice")]
    initial
  = (Stopped, {| known_peers := ∅;
                 console := [ErrorReceiving (Exception "EOFError")] |}) /\
  @listen_for_messages bytes with_gadget bob
    [Datagram gadget; Datagram (join_from key_A "alice")] initial
  = (Stopped, {| known_peers := {[ alice := [x4d] ]};
                 console := [ErrorReceiving (Exception "TypeError")] |}).
Proof.
  split.
  - assert (Hdec : decode [] (initial : state bytes)
                   = (inl (Exception "EOFError"), initial))
      by (vm_compute; reflexivity).
    apply (undecodable_datagram_ends_loop bob [] "EOFError"
             [Datagram (join_from key_A "alice")] initial initial Hdec).
  - assert (Hdec : @decode bytes with_gadget gadget initial
                   = (inl (Exception "TypeError"),
                      {| known_peers := {[ alice := [x4d] ]};
                         console := [] |}))
      by (vm_compute; reflexivity).
    apply (@undecodable_datagram_ends_loop bytes with_gadget bob gadget
             "TypeError" [Datagram (join_from key_A "alice")] initial _ Hdec).
Defined.

(** The empty datagram does not unpickle, and the loop does not survive it:
    the JOIN that follows is never processed. *)
Lemma undecodable_datagram_not_dropped :
  decode [] (initial : state bytes) = (inl (Exception "EOFError"), initial) /\
  fst (listen_iteration bob (Datagram []) initial) <> Running /\
  listen_for_messages bob [Datagram []; Datagram (join_from key_A "alice")]
    initial
  = (Stopped, {| known_peers := ∅;
                 console := [ErrorReceiving (Exception "EOFError")] |}).
Proof.
  split; [vm_compute; reflexivity|]. split; [|vm_compute; reflexivity].
  vm_compute. discriminate.
Qed.

(** After EBADF the loop is still running and processes the next
    datagram. *)
Lemma ebadf_does_not_end_loop :
  fst (listen_for_messages bob [RecvRaises (OSError EBADF)] initial)
  <> Stopped /\
  listen_for_messages bob
    [RecvRaises (OSError EBADF); Datagram (join_from key_A "alice")] initial
  = (Running, {| known_peers := {[ alice := key_A ]};
                 console := [Welcome alice] |}).
Proof.
  split; [vm_compute; discriminate|]. vm_compute. reflexivity.
Qed.

(** The peer's own JOIN, as the discovery loop builds it, puts the local
    username in the directory when multicast hands it back. *)
Lemma own_join_enters_directory :
  discovery_payload bob = inr (join_from local_key "bob") /\
  known_peers
    (snd (listen_for_messages bob [Datagram (join_from local_key "bob")]
            initial)) !! bob
  = Some local_key.
Proof. split; vm_compute; reflexivity. Qed.

Lemma local_username_absent_without_own_join_witness :
  known_peers
    (snd (listen_for_messages bob
            [Datagram (join_from key_A "alice");
             Datagram (chat_from key_A "alice: hello");
             Datagram (leave_from "alice")] initial)) !! bob = None.
Proof.
  apply (local_username_absent_without_own_join bob
           [Datagram (join_from key_A "alice");
            Datagram (chat_from key_A "alice: hello");
            Datagram (leave_from "alice")] initial).
  - reflexivity.
  - intros ev Hin.
    repeat (apply elem_of_cons in Hin as [->|Hin];
            [eexists; apply demo_plain|]).
    now apply not_elem_of_nil in Hin.
  - intros ev Hin (payload & e & n & s & sn & -> & Hdec & Hu).
    specialize (Hdec initial). rewrite demo_decode in Hdec.
    injection Hdec as Hdec.
    repeat (apply elem_of_cons in Hin as [Hin|Hin];
            [injection Hin as ->; vm_compute in Hdec;
             try discriminate Hdec;
             injection Hdec as <- <- <- <-; vm_compute in Hu;
             discriminate Hu|]).
    now apply not_elem_of_nil in Hin.
Defined.



Lemma join_adds_once_witness :
  let st1 := snd (listen_iteration bob
                    (Datagram (join_from key_A "alice")) initial) in
  known_peers st1 !! alice = Some key_A /\
  known_peers (snd (listen_iteration bob
                      (Datagram (join_from key_B "alice")) st1)) !! alice
  = known_peers st1 !! alice.
Proof.
  assert (HdecA : forall st : state bytes,
             decode (join_from key_A "alice") st
             = (inr (PStr (lit "JOIN"),
                     PBytes (rev (list_byte_of_string "alice")),
                     PBytes nonce, PBytes (rev key_A), PBytes nonce), st))
    by (intros st; rewrite demo_decode; vm_compute; reflexivity).
  assert (HdecB : forall st : state bytes,
             decode (join_from key_B "alice") st
             = (inr (PStr (lit "JOIN"),
                     PBytes (rev (list_byte_of_string "alice")),
                     PBytes nonce, PBytes (rev key_B), PBytes nonce), st))
    by (intros st; rewrite demo_decode; vm_compute; reflexivity).
  assert (Hname : unpack_data (PBytes (rev (list_byte_of_string "alice")))
                    (PBytes nonce) = inr alice)
    by (vm_compute; reflexivity).
  assert (HkA : unpack_data_key (PBytes (rev key_A)) (PBytes nonce)
                = inr key_A) by (vm_compute; reflexivity).
  assert (HkB : unpack_data_key (PBytes (rev key_B)) (PBytes nonce)
                = inr key_B) by (vm_compute; reflexivity).
  destruct (join_adds_once bob _ _ _ _ _ alice key_A initial initial
              (HdecA initial) Hname HkA)
    as [Hfresh [_ Hsecond]].
  split; [apply Hfresh; vm_compute; reflexivity|].
  apply (Hsecond _ _ _ _ _ key_B _ (HdecB _) eq_refl Hname HkB).
Defined.

Lemma leave_removes_witness :
  known_peers (snd (listen_iteration bob (Datagram (leave_from "alice"))
                      st_alice)) !! alice = None.
Proof.
  assert (Hdec : decode (leave_from "alice") st_alice
                 = (inr (PStr (lit "LEAVE"),
                         PBytes (list_byte_of_string "alice"),
                         PBytes [], PBytes [], PBytes []), st_alice))
    by (rewrite demo_decode; vm_compute; reflexivity).
  assert (Hname : decode_utf8 (PBytes (list_byte_of_string "alice"))
                  = inr alice) by (vm_compute; reflexivity).
  apply (leave_removes bob _ _ _ _ _ alice st_alice st_alice Hdec Hname).
Defined.

Lemma leave_always_prints_witness :
  printed initial
    (snd (listen_iteration bob (Datagram (leave_from "alice")) initial))
  = [HasLeft alice].
Proof.
  assert (Hdec : decode (leave_from "alice") (initial : state bytes)
                 = (inr (PStr (lit "LEAVE"),
                         PBytes (list_byte_of_string "alice"),
                         PBytes [], PBytes [], PBytes []), initial))
    by (rewrite demo_decode; vm_compute; reflexivity).
  assert (Hname : decode_utf8 (PBytes (list_byte_of_string "alice"))
                  = inr alice) by (vm_compute; reflexivity).
  apply (leave_always_prints bob _ _ _ _ _ alice initial initial Hdec Hname).
Defined.

End ClientFacts.

(** ** The send loop *)

Module SendFacts.
Import Py Client Utf8Facts.

Section Send.
Context {pubkey : Type} `{!Collaborators pubkey}.
Variable username : str.

(** On pure ASCII text [lower] does not depend on the collaborators. *)
Lemma lower_ascii (s : str) :
  is_ascii s = true -> lower s = map ascii_lower s.
Proof. intros H. unfold lower. now rewrite H. Qed.

(** C10, as amended: an input whose lowercased form is "exit" ends the send
    loop and nothing is sent for it; any other input is prefixed with the
    username and, when the whole is text that UTF-8 can encode, its
    encoding, which decodes back to it, is encrypted and signed by
    [pack_data] and sent as a CHAT; when the input or the username holds
    a lone surrogate, nothing is sent and [UnicodeEncodeError], which
    nothing catches, unwinds the loop.  "EXIT" and "Exit" are exit
    commands, an input that merely contains "exit" is not. *)
Theorem exit_command_iff (raw_message : str) :
  (lower raw_message = lit "exit" ->
   send_iteration username raw_message = Exit) /\
  (lower raw_message <> lit "exit" ->
   is_text username -> is_text raw_message ->
   exists message,
     Utf8.decode false message
     = Some (username ++ lit ": " ++ raw_message) /\
     encode_utf8 (username ++ lit ": " ++ raw_message) = inr message /\
     send_iteration username raw_message
     = SendChat (pickle_dumps
                   [PStr (lit "CHAT"); PBytes (pack_data message).1.1;
                    PBytes (pack_data message).1.2;
                    PBytes (pack_data message).2; PBytes NULL_BYTE])) /\
  (lower raw_message <> lit "exit" ->
   ~ (is_text username /\ is_text raw_message) ->
   send_iteration username raw_message
   = Uncaught (Exception "UnicodeEncodeError")) /\
  lower (lit "EXIT") = lit "exit" /\
  lower (lit "Exit") = lit "exit" /\
  lower (lit "exit now") <> lit "exit" /\
  lower (lit "no exit") <> lit "exit".
Proof.
  split; [|split; [|split]].
  - intros H. unfold send_iteration.
    now rewrite (bool_decide_eq_true_2 _ H).
  - intros H Hu Hraw. unfold send_iteration.
    rewrite (bool_decide_eq_false_2 _ H).
    assert (Htext : is_text (username ++ lit ": " ++ raw_message)).
    { apply Forall_app. split; [exact Hu|].
      apply Forall_app.
      split; [apply Utf8Facts.is_text_separator|exact Hraw]. }
    destruct (Utf8Facts.encode_text _ Htext) as [message Hm].
    exists message. unfold encode_utf8. rewrite Hm.
    split; [now apply Utf8Facts.decode_encode|].
    split; [reflexivity|].
    now destruct (pack_data message) as [[c n] sg].
  - intros H Hno. unfold send_iteration.
    rewrite (bool_decide_eq_false_2 _ H). unfold encode_utf8.
    rewrite encode_not_text; [reflexivity|].
    intros Ht. apply Hno.
    apply Forall_app in Ht as [Hu Ht]. apply Forall_app in Ht as [_ Hr].
    now split.
  - repeat split; try (rewrite lower_ascii by reflexivity; reflexivity);
      rewrite lower_ascii by reflexivity; vm_compute; discriminate.
Qed.

End Send.

Import Demo.

Lemma exit_command_iff_witness :
  send_iteration (lit "bob") (lit "eXiT") = Exit /\
  (exists message,
     Utf8.decode false message = Some (lit "bob" ++ lit ": " ++ lit "exit now")
     /\ encode_utf8 (lit "bob" ++ lit ": " ++ lit "exit now") = inr message /\
     send_iteration (lit "bob") (lit "exit now")
     = SendChat (pickle_dumps
                   [PStr (lit "CHAT"); PBytes (pack_data message).1.1;
                    PBytes (pack_data message).1.2;
                    PBytes (pack_data message).2; PBytes NULL_BYTE])) /\
  send_iteration (lit "bob") (lit "caf" ++ [0xDCE9])
  = Uncaught (Exception "UnicodeEncodeError").
Proof.
  split; [|split].
  - apply (exit_command_iff (lit "bob") (lit "eXiT")).
    vm_compute. reflexivity.
  - apply (exit_command_iff (lit "bob") (lit "exit now")).
    + vm_compute. discriminate.
    + repeat constructor.
    + repeat constructor.
  - apply (exit_command_iff (lit "bob") (lit "caf" ++ [0xDCE9])).
    + vm_compute. discriminate.
    + intros [_ Hraw]. apply Forall_app in Hraw as [_ Hraw].
      apply Forall_inv in Hraw. destruct Hraw as [_ Hs].
      vm_compute in Hs. discriminate Hs.
Defined.

(** A line that is not an exit command and is not sent: it holds a lone
    surrogate, which is what [input] makes of an octet that is not UTF-8
    when the terminal is read with the [surrogateescape] error handler. *)
Lemma surrogate_line_is_not_sent :
  lower (lit "caf" ++ [0xDCE9]) <> lit "exit" /\
  send_iteration bob (lit "caf" ++ [0xDCE9])
  = Uncaught (Exception "UnicodeEncodeError") /\
  forall payload,
    send_iteration bob (lit "caf" ++ [0xDCE9]) <> SendChat payload.
Proof.
  split; [vm_compute; discriminate|].
  split; [vm_compute; reflexivity|].
  intros payload H. vm_compute in H. discriminate H.
Qed.

End SendFacts.

(** ** More on the receive loop *)

Module ReceiveFacts.
Import Py Client Program Utf8Facts ClientFacts.

Section Receive.
Context {pubkey : Type} `{!Collaborators pubkey}.
Variable username : str.

(** The body of the [try], once the datagram is unpacked, either returns,
    having printed at most one line, or raises, having printed nothing;
    it has then changed nothing, unless it is a JOIN whose welcome could
    not be printed: the username is in the directory all the same. *)
Lemma dispatch_effect envelope (st : state pubkey) :
  (exists st' l, dispatch username envelope st = (inr tt, st') /\
                 console st' = console st ++ l /\ (length l <= 1)%nat) \/
  (exists err st', dispatch username envelope st = (inl err, st') /\
     console st' = console st /\
     (known_peers st' = known_peers st \/
      exists e n s sn u k,
        envelope = (PStr (lit "JOIN"), e, n, s, sn) /\
        unpack_data e n = inr u /\ unpack_data_key s sn = inr k /\
        known_peers st !! u = None /\ written (Welcome u) = inl err /\
        known_peers st' = <[u := k]> (known_peers st))).
Proof.
  assert (Hquiet : forall r : exn + unit, r = inr tt ->
            exists st' l, (r, st) = (inr tt, st') /\
                          console st' = console st ++ l /\
                          (length l <= 1)%nat).
  { intros r ->. exists st, []. rewrite app_nil_r.
    repeat split. cbn. lia. }
  assert (Hfail : forall err,
            exists err' st', (@inl exn unit err, st) = (inl err', st') /\
              console st' = console st /\
              (known_peers st' = known_peers st \/
               exists e n s sn u k,
                 envelope = (PStr (lit "JOIN"), e, n, s, sn) /\
                 unpack_data e n = inr u /\ unpack_data_key s sn = inr k /\
                 known_peers st !! u = None /\
                 written (Welcome u) = inl err' /\
                 known_peers st' = <[u := k]> (known_peers st))).
  { intros err. exists err, st. repeat split. now left. }
  destruct envelope as [[[[mt e] n] s] sn]. unfold dispatch.
  destruct (eq_lit mt "CHAT").
  { rewrite on_chat_cases.
    destruct (unpack_data e n) as [err|raw]; [right; apply Hfail|].
    destruct (startswith raw (username ++ lit ": "));
      [left; now apply Hquiet|].
    destruct (known_peers st !! split_head (lit ": ") raw) as [key|];
      [|left; now apply Hquiet].
    destruct (encode_utf8 raw) as [err|message]; [right; apply Hfail|].
    destruct (verify_signature key s message); [|left; now apply Hquiet].
    left. eexists _, [Display raw]. split; [reflexivity|].
    split; [reflexivity|cbn; lia]. }
  destruct (eq_lit mt "JOIN") eqn:Hjoin.
  { apply eq_lit_true in Hjoin. subst mt.
    destruct (unpack_data e n) as [err|u] eqn:Hu;
      [unfold on_join; engine_unfold; rewrite Hu; right; apply Hfail|].
    destruct (unpack_data_key s sn) as [err|k] eqn:Hk;
      [unfold on_join; engine_unfold; rewrite Hu, Hk; right; apply Hfail|].
    rewrite (on_join_run _ _ _ _ _ _ _ Hu Hk).
    destruct (known_peers st !! u) eqn:Hl; [left; now apply Hquiet|].
    unfold shows. destruct (written (Welcome u)) as [err|[]] eqn:Hw.
    - right. eexists err, _. split; [reflexivity|]. cbn.
      split; [apply app_nil_r|]. right. now exists e, n, s, sn, u, k.
    - left. eexists _, [Welcome u]. split; [reflexivity|].
      split; [reflexivity|cbn; lia]. }
  destruct (eq_lit mt "LEAVE") eqn:Hleave.
  { destruct (decode_utf8 e) as [err|u] eqn:Hu;
      [unfold on_leave; engine_unfold; rewrite Hu; right; apply Hfail|].
    rewrite (on_leave_run _ _ _ Hu).
    left. eexists _, [HasLeft u]. split; [reflexivity|].
    split; [reflexivity|cbn; lia]. }
  unfold print. destruct (written (UnknownType mt)) as [err|[]].
  - right. apply Hfail.
  - left. eexists _, [UnknownType mt]. split; [reflexivity|].
    split; [reflexivity|cbn; lia].
Qed.


(** What one turn of the loop on data can do to the directory: nothing, add
    the pair of a JOIN for a username that was absent, or drop the username
    a LEAVE names. *)
Lemma iteration_directory ev (st : state pubkey) :
  data_only ev ->
  let d := known_peers st in
  let d' := known_peers (snd (listen_iteration username ev st)) in
  d' = d \/
  (exists u k, carries ev u k /\ d !! u = None /\ d' = <[u := k]> d) \/
  (exists u, names_leave ev u /\ d' = delete u d).
Proof.
  intros Hdata. cbn zeta.
  destruct (listen_iteration_handlers username ev st) as [-> _].
  destruct ev as [payload|err]; [|now left].
  destruct Hdata as [r Hp]. rewrite (try_body_plain _ _ _ _ Hp).
  destruct r as [err|v]; [now left|].
  destruct (unpack5 v) as [err|envelope] eqn:Hv; [now left|].
  pose proof (decodes_plain _ _ _ Hp Hv) as Hdec.
  destruct (dispatch_directory username envelope st)
    as [->|[(e & n & s & sn & u & k & -> & Hu & Hk & Hl & ->)
           |(e & n & s & sn & u & -> & Hu & ->)]].
  - now left.
  - right. left. exists u, k. split; [|now split].
    now exists payload, e, n, s, sn.
  - right. right. exists u. split; [|reflexivity].
    now exists payload, e, n, s, sn.
Qed.


(** X3: through datagrams that are data, a username bound to a key after
    the loop has run was bound to that key before, or one of the datagrams
    is a JOIN that decrypts to that username and that key: among data,
    nothing else writes the directory. *)
Theorem entries_come_from_joins evs u k (st : state pubkey) :
  (forall ev, ev ∈ evs -> data_only ev) ->
  known_peers (snd (listen_for_messages username evs st)) !! u = Some k ->
  known_peers st !! u = Some k \/ exists ev, ev ∈ evs /\ carries ev u k.
Proof.
  revert st. induction evs as [|ev evs IH]; intros st Hdata H; [now left|].
  cbn [listen_for_messages] in H.
  assert (Hstep : known_peers (snd (listen_iteration username ev st)) !! u
                  = Some k ->
                  known_peers st !! u = Some k \/ carries ev u k).
  { intros Hk.
    destruct (iteration_directory ev st (Hdata ev (list_elem_of_here _ _)))
      as [Heq|[(u' & k' & Hc & Habs & Heq)|(u' & Hn & Heq)]];
      rewrite Heq in Hk.
    - now left.
    - destruct (decide (u' = u)) as [->|Hne].
      + rewrite lookup_insert_eq in Hk. injection Hk as ->. now right.
      + rewrite lookup_insert_ne in Hk by exact Hne. now left.
    - destruct (decide (u' = u)) as [->|Hne].
      + now rewrite lookup_delete_eq in Hk.
      + rewrite lookup_delete_ne in Hk by exact Hne. now left. }
  assert (Hrest : forall ev', ev' ∈ evs -> data_only ev').
  { intros ev' Hin. apply Hdata. now apply list_elem_of_further. }
  destruct (listen_iteration username ev st) as [[|] st'] eqn:E; cbn in Hstep.
  - destruct (IH st' Hrest H) as [Hin|[ev' [Hin Hc]]].
    + destruct (Hstep Hin) as [?|Hc]; [now left|].
      right. exists ev. split; [apply list_elem_of_here|exact Hc].
    + right. exists ev'. split; [now apply list_elem_of_further|exact Hc].
  - cbn in H. destruct (Hstep H) as [?|Hc]; [now left|].
    right. exists ev. split; [apply list_elem_of_here|exact Hc].
Qed.

(** X4: an entry of the directory keeps its key through any datagrams that
    are data and none of which is a LEAVE naming its username: neither a
    CHAT nor a JOIN, whatever key it carries, nor an error replaces or
    removes it. *)
Theorem entry_kept_without_leave evs u k (st : state pubkey) :
  known_peers st !! u = Some k ->
  (forall ev, ev ∈ evs -> data_only ev) ->
  (forall ev, ev ∈ evs -> ~ names_leave ev u) ->
  known_peers (snd (listen_for_messages username evs st)) !! u = Some k.
Proof.
  revert st. induction evs as [|ev evs IH]; intros st Hk Hdata Hno;
    [exact Hk|].
  cbn [listen_for_messages].
  assert (Hstep : known_peers (snd (listen_iteration username ev st)) !! u
                  = Some k).
  { destruct (iteration_directory ev st (Hdata ev (list_elem_of_here _ _)))
      as [Heq|[(u' & k' & Hc & Habs & Heq)|(u' & Hn & Heq)]];
      rewrite Heq.
    - exact Hk.
    - rewrite lookup_insert_ne; [exact Hk|]. intros ->. congruence.
    - rewrite lookup_delete_ne; [exact Hk|]. intros ->.
      apply (Hno ev); [apply list_elem_of_here|exact Hn]. }
  destruct (listen_iteration username ev st) as [[|] st'] eqn:E; cbn in Hstep.
  - apply IH; [exact Hstep| |].
    + intros ev' Hin. apply Hdata. now apply list_elem_of_further.
    + intros ev' Hin. apply Hno. now apply list_elem_of_further.
  - exact Hstep.
Qed.

(** One turn of the loop on a message of a type that is none of the
    three. *)
Lemma listen_iteration_unknown payload mt e n s sn (st0 st : state pubkey) :
  decode payload st0 = (inr (mt, e, n, s, sn), st) ->
  mt <> PStr (lit "CHAT") -> mt <> PStr (lit "JOIN") ->
  mt <> PStr (lit "LEAVE") ->
  listen_iteration username (Datagram payload) st0
  = match written (UnknownType mt) with
    | inr tt =>
      (Running, {| known_peers := known_peers st;
                   console := console st ++ [UnknownType mt] |})
    | inl (OSError _) => (Running, st)
    | inl (Exception name) =>
      (Stopped,
       {| known_peers := known_peers st;
          console := console st
                     ++ shows (ErrorReceiving (Exception name)) |})
    end.
Proof.
  intros Hdec Hc Hj Hl.
  assert (Hb : try_body username (Datagram payload) st0
               = print (UnknownType mt) st).
  { rewrite (try_body_decoded _ _ _ _ _ Hdec). unfold dispatch.
    now rewrite (eq_lit_false _ _ Hc), (eq_lit_false _ _ Hj),
      (eq_lit_false _ _ Hl). }
  destruct (written (UnknownType mt)) as [[errno|name]|[]] eqn:Hw.
  - apply (listen_iteration_oserror _ _ errno). rewrite Hb.
    now apply print_raises.
  - apply listen_iteration_exception. rewrite Hb. now apply print_raises.
  - apply listen_iteration_ok. rewrite Hb. now apply print_written.
Qed.

(** The notice for a type that is a string is written exactly when the
    string is text. *)
Lemma written_unknown_str (t : str) :
  written (UnknownType (PStr t))
  = match Utf8.encode false t with
    | Some _ => inr tt
    | None => inl (Exception "UnicodeEncodeError")
    end.
Proof.
  destruct (Utf8.encode false t) as [b|] eqn:E.
  - apply (written_text (UnknownType (PStr t))
             (lit "Unknown message type: " ++ t) eq_refl).
    apply is_text_app; [now apply is_text_lit|].
    now apply (encode_is_text t b).
  - unfold written. cbn [text_of format_value].
    rewrite encode_not_text; [reflexivity|].
    intros Ht. apply Forall_app in Ht as [_ Ht].
    destruct (encode_text t Ht) as [b Hb]. congruence.
Qed.

(** X5: a datagram that unpacks into five fields whose type is none of
    "CHAT", "JOIN", "LEAVE" (the comparison is exact: "chat" is none of
    them, nor is [bytes] or a number) is reported as of unknown type when
    the type can be formatted and the line written: the directory is
    unchanged and the loop goes on.  When it cannot (the [repr] of the
    type raises, as on a tuple nested too deep, or the type is a string
    that holds a lone surrogate) the loop ends on that exception. *)
Theorem unknown_type_reported payload mt e n s sn (st0 st : state pubkey) :
  decode payload st0 = (inr (mt, e, n, s, sn), st) ->
  mt <> PStr (lit "CHAT") -> mt <> PStr (lit "JOIN") ->
  mt <> PStr (lit "LEAVE") ->
  (written (UnknownType mt) = inr tt ->
   listen_iteration username (Datagram payload) st0
   = (Running, {| known_peers := known_peers st;
                  console := console st ++ [UnknownType mt] |})) /\
  (forall name, written (UnknownType mt) = inl (Exception name) ->
   listen_iteration username (Datagram payload) st0
   = (Stopped,
      {| known_peers := known_peers st;
         console := console st
                    ++ shows (ErrorReceiving (Exception name)) |})) /\
  (forall t, mt = PStr t -> is_text t -> written (UnknownType mt) = inr tt) /\
  (forall t, mt = PStr t -> ~ is_text t ->
   written (UnknownType mt) = inl (Exception "UnicodeEncodeError")) /\
  (forall err, (forall t, mt <> PStr t) -> repr_value mt = inl err ->
   written (UnknownType mt) = inl err).
Proof.
  intros Hdec Hc Hj Hl.
  pose proof (listen_iteration_unknown _ _ _ _ _ _ _ _ Hdec Hc Hj Hl) as Hi.
  split; [|split; [|split; [|split]]].
  - intros Hw. now rewrite Hw in Hi.
  - intros name Hw. now rewrite Hw in Hi.
  - intros t -> Ht. rewrite written_unknown_str.
    now destruct (encode_text t Ht) as [b ->].
  - intros t -> Ht. rewrite written_unknown_str.
    now rewrite (encode_not_text t Ht).
  - intros err Hns Hr. unfold written. cbn [text_of].
    destruct mt; cbn [format_value]; try (now rewrite Hr).
    now destruct (Hns s0).
Qed.

(** X6: a payload that unpickles to a string is unpacked character by
    character: a string of five characters is a message whose type is its
    first character, reported as unknown when that character can be
    written, and ending the loop on [UnicodeEncodeError] when it is a lone
    surrogate; a string of any other length ends the loop on a
    [ValueError]. *)
Theorem pickled_text_is_no_message payload text (st0 st : state pubkey) :
  pickle_loads payload st0 = (inr (PStr text), st) ->
  is_str text ->
  listen_iteration username (Datagram payload) st0
  = match text with
    | [c; _; _; _; _] =>
      if is_surrogate c then
        (Stopped,
         {| known_peers := known_peers st;
            console :=
              console st
              ++ shows (ErrorReceiving (Exception "UnicodeEncodeError")) |})
      else
        (Running, {| known_peers := known_peers st;
                     console := console st ++ [UnknownType (PStr [c])] |})
    | _ =>
      (Stopped,
       {| known_peers := known_peers st;
          console := console st
                     ++ shows (ErrorReceiving (Exception "ValueError")) |})
    end.
Proof.
  intros Hload Hstr.
  assert (Hdec : decode payload st0 = (unpack5 (PStr text), st)).
  { unfold decode. engine_unfold. rewrite Hload.
    now destruct (unpack5 (PStr text)). }
  destruct text as [|c1 [|c2 [|c3 [|c4 [|c5 [|c6 text]]]]]];
    try (apply listen_iteration_exception;
         apply (try_body_undecoded _ _ _ _ _ Hdec)).
  rewrite (listen_iteration_unknown _ _ _ _ _ _ _ _ Hdec);
    try (intros Heq; vm_compute in Heq; discriminate Heq).
  rewrite written_unknown_str. cbn [Utf8.encode].
  apply Forall_inv in Hstr. apply N.ltb_lt in Hstr. rewrite Hstr.
  cbn [andb orb fmap option_fmap option_map].
  now destruct (is_surrogate c1).
Qed.

(** X7: when the receive loop has ended on datagrams that are data, it has
    ended on one of them, after running through those before it, and that
    one has added at most one line, the error.  It has left the directory
    as the datagrams before it had made it, with one exception: a JOIN for
    an absent username whose welcome cannot be written has entered the
    username before the [print] that ends the loop. *)
Theorem loop_ends_on_an_error_line evs (st st' : state pubkey) :
  (forall ev, ev ∈ evs -> data_only ev) ->
  listen_for_messages username evs st = (Stopped, st') ->
  exists evs1 ev evs2 st1 name,
    evs = evs1 ++ ev :: evs2 /\
    listen_for_messages username evs1 st = (Running, st1) /\
    console st'
    = console st1 ++ shows (ErrorReceiving (Exception name)) /\
    (known_peers st' = known_peers st1 \/
     exists u k,
       carries ev u k /\ known_peers st1 !! u = None /\
       written (Welcome u) = inl (Exception name) /\
       known_peers st' = <[u := k]> (known_peers st1)).
Proof.
  revert st. induction evs as [|ev evs IH]; intros st Hdata H;
    [discriminate|].
  cbn [listen_for_messages] in H.
  destruct (listen_iteration username ev st) as [[|] st2] eqn:E.
  - destruct (IH st2) as (evs1 & ev' & evs2 & st1 & name & -> & Hrun & Hrest);
      [intros ev' Hin; apply Hdata; now apply list_elem_of_further|exact H|].
    exists (ev :: evs1), ev', evs2, st1, name.
    split; [reflexivity|]. split; [|exact Hrest].
    cbn [listen_for_messages]. now rewrite E.
  - injection H as <-. exists [], ev, evs, st.
    unfold listen_iteration in E.
    destruct (try_body username ev st) as [[[errno|name]|[]] st3] eqn:Hb;
      [destruct (errno =? EBADF)%Z; discriminate| |discriminate].
    exists name. apply (f_equal snd) in E. cbn [snd] in E. subst st2.
    rewrite print_state. cbn [known_peers console].
    split; [reflexivity|]. split; [reflexivity|].
    destruct ev as [payload|err].
    2:{ cbn in Hb. injection Hb as _ <-. split; [reflexivity|now left]. }
    destruct (Hdata (Datagram payload) (list_elem_of_here _ _)) as [r Hp].
    rewrite (try_body_plain _ _ _ _ Hp) in Hb.
    destruct r as [err|v];
      [injection Hb as _ <-; split; [reflexivity|now left]|].
    destruct (unpack5 v) as [err|envelope] eqn:Hv;
      [injection Hb as _ <-; split; [reflexivity|now left]|].
    destruct (dispatch_effect envelope st)
      as [(st4 & l & Hd & _)|(err & st4 & Hd & Hc & Hk)];
      rewrite Hd in Hb; [discriminate|].
    injection Hb as -> <-. rewrite Hc. split; [reflexivity|].
    destruct Hk
      as [Hk|(e & n & s & sn & u & k & -> & Hu & Hkey & Hl & Hw & Hk)];
      [now left|].
    right. exists u, k. split; [|now split].
    exists payload, e, n, s, sn. split; [reflexivity|].
    split; [now apply (decodes_plain _ v)|now split].
Qed.

(** X8: a CHAT or a JOIN whose text does not decrypt, a JOIN whose key does
    not decrypt, a LEAVE whose username is not UTF-8 or is of a type that
    has no [decode]: each, raising something that is not an [OSError],
    ends the receive loop, after the error line when that line can be
    written; the directory is as the decoding left it (the JOIN adds
    nothing, the LEAVE removes nothing) and the datagrams that follow are
    not read. *)
Theorem field_failure_ends_loop payload mt e n s sn name evs
    (st0 st : state pubkey) :
  decode payload st0 = (inr (PStr (lit mt), e, n, s, sn), st) ->
  (mt = "CHAT"%string /\ unpack_data e n = inl (Exception name)) \/
  (mt = "JOIN"%string /\
   (unpack_data e n = inl (Exception name) \/
    (exists u, unpack_data e n = inr u) /\
    unpack_data_key s sn = inl (Exception name))) \/
  (mt = "LEAVE"%string /\ decode_utf8 e = inl (Exception name)) ->
  listen_for_messages username (Datagram payload :: evs) st0
  = (Stopped,
     {| known_peers := known_peers st;
        console := console st ++ shows (ErrorReceiving (Exception name)) |}).
Proof.
  intros Hdec Hfail. cbn [listen_for_messages].
  rewrite (listen_iteration_exception _ _ name st0 st); [reflexivity|].
  rewrite (try_body_decoded _ _ _ _ _ Hdec).
  destruct Hfail as [[-> Hu]|[[-> Hj]|[-> Hu]]].
  - rewrite dispatch_chat, on_chat_cases. now rewrite Hu.
  - rewrite dispatch_join. unfold on_join. engine_unfold.
    destruct Hj as [Hu|[[u Hu] Hk]]; rewrite Hu; cbn; [reflexivity|].
    now rewrite Hk.
  - rewrite dispatch_leave. unfold on_leave. engine_unfold.
    now rewrite Hu.
Qed.

Lemma listen_iteration_carries ev u k (st : state pubkey) :
  carries ev u k -> written (Welcome u) = inr tt ->
  listen_iteration username ev st
  = (Running,
     match known_peers st !! u with
     | None => {| known_peers := <[u := k]> (known_peers st);
                  console := console st ++ [Welcome u] |}
     | Some _ => st
     end).
Proof.
  intros (payload & e & n & s & sn & -> & Hdec & Hu & Hk) Hw.
  now apply (listen_iteration_join _ _ _ _ _ _ _ _ _ _ (Hdec st)).
Qed.

Lemma listen_iteration_names_leave ev u (st : state pubkey) :
  names_leave ev u ->
  listen_iteration username ev st
  = (Running, {| known_peers := delete u (known_peers st);
                 console := console st ++ [HasLeft u] |}).
Proof.
  intros (payload & e & n & s & sn & -> & Hdec & Hu).
  rewrite (listen_iteration_leave _ _ _ _ _ _ _ _ _ (Hdec st) Hu).
  destruct (known_peers st !! u) eqn:Hl; [reflexivity|].
  now rewrite (delete_id _ _ Hl).
Qed.

(** The username a LEAVE names is text. *)
Lemma names_leave_text ev u : names_leave ev u -> is_text u.
Proof.
  intros (payload & e & n & s & sn & _ & _ & Hu).
  now apply (decode_utf8_text e).
Qed.

(** X9: a LEAVE naming a username followed by a JOIN for it binds the
    username to the key of the JOIN, whatever key it was bound to, and
    prints the departure and the welcome. *)
Theorem leave_then_join_rebinds leave join u k (st : state pubkey) :
  names_leave leave u -> carries join u k ->
  listen_for_messages username [leave; join] st
  = (Running, {| known_peers := <[u := k]> (known_peers st);
                 console := console st ++ [HasLeft u; Welcome u] |}).
Proof.
  intros Hl Hj. cbn [listen_for_messages].
  rewrite (listen_iteration_names_leave _ _ _ Hl).
  rewrite (listen_iteration_carries _ _ _ _ Hj
             (written_welcome _ (names_leave_text _ _ Hl))).
  cbn [known_peers console].
  rewrite lookup_delete_eq, insert_delete_eq, <- app_assoc. reflexivity.
Qed.

(** X10: after a JOIN for a username followed by a LEAVE naming it the
    directory holds no entry for the username; when it held none before,
    the directory is back as it was and the welcome and the departure
    have been printed. *)
Theorem join_then_leave_forgets join leave u k (st : state pubkey) :
  carries join u k -> names_leave leave u ->
  let st' := snd (listen_for_messages username [join; leave] st) in
  known_peers st' = delete u (known_peers st) /\
  (known_peers st !! u = None ->
   st' = {| known_peers := known_peers st;
            console := console st ++ [Welcome u; HasLeft u] |}).
Proof.
  intros Hj Hl. cbn [listen_for_messages].
  rewrite (listen_iteration_carries _ _ _ _ Hj
             (written_welcome _ (names_leave_text _ _ Hl))).
  rewrite (listen_iteration_names_leave _ _ _ Hl). cbn [snd known_peers].
  split.
  - destruct (known_peers st !! u); cbn [known_peers]; [reflexivity|].
    apply delete_insert_eq.
  - intros Habs. rewrite Habs. cbn [known_peers console].
    rewrite (delete_insert_id _ _ _ Habs), <- app_assoc. reflexivity.
Qed.

End Receive.

(** *** On concrete traffic *)

Import Demo.

Ltac demo_data Hin :=
  repeat (apply elem_of_cons in Hin as [->|Hin];
          [eexists; apply demo_plain|]);
  now apply not_elem_of_nil in Hin.

(** A LEAVE whose username is a [bytearray] is decoded and processed like
    one whose username is [bytes]. *)
Lemma leave_bytearray_removes :
  names_leave (Datagram leave_bytearray) alice /\
  listen_iteration bob (Datagram leave_bytearray) st_alice
  = (Running, {| known_peers := ∅;
                 console := [Welcome alice; HasLeft alice] |}).
Proof.
  split; [|vm_compute; reflexivity].
  exists leave_bytearray, (PByteArray (list_byte_of_string "alice")),
    (PBytes []), (PBytes []), (PBytes []).
  split; [reflexivity|].
  split; [apply demo_decodes|]; vm_compute; reflexivity.
Qed.


Lemma entries_come_from_joins_witness :
  known_peers (initial : state bytes) !! alice = Some key_A \/
  exists ev, ev ∈ [Datagram (chat_from key_A "alice: hello");
                   Datagram (join_from key_A "alice")] /\
             carries ev alice key_A.
Proof.
  apply (entries_come_from_joins bob
           [Datagram (chat_from key_A "alice: hello");
            Datagram (join_from key_A "alice")] alice key_A initial).
  - intros ev Hin. demo_data Hin.
  - vm_compute. reflexivity.
Defined.

Lemma entry_kept_without_leave_witness :
  known_peers
    (snd (listen_for_messages bob
            [Datagram (chat_from key_A "alice: hello");
             Datagram (join_from key_B "alice");
             Datagram (leave_from "bob")] st_alice)) !! alice
  = Some key_A.
Proof.
  apply (entry_kept_without_leave bob
           [Datagram (chat_from key_A "alice: hello");
            Datagram (join_from key_B "alice");
            Datagram (leave_from "bob")] alice key_A st_alice).
  - vm_compute. reflexivity.
  - intros ev Hin. demo_data Hin.
  - intros ev Hin (payload & e & n & s & sn & -> & Hdec & Hu).
    specialize (Hdec initial). rewrite demo_decode in Hdec.
    injection Hdec as Hdec.
    repeat (apply elem_of_cons in Hin as [Hin|Hin];
            [injection Hin as ->; vm_compute in Hdec;
             try discriminate Hdec;
             injection Hdec as <- <- <- <-; vm_compute in Hu;
             discriminate Hu|]).
    now apply not_elem_of_nil in Hin.
Defined.

Lemma unknown_type_reported_witness :
  listen_iteration bob
    (Datagram (dumps [PStr (lit "chat"); PBytes []; PBytes []; PBytes [];
                      PBytes []])) st_alice
  = (Running, {| known_peers := known_peers st_alice;
                 console := console st_alice
                            ++ [UnknownType (PStr (lit "chat"))] |}) /\
  listen_iteration bob
    (Datagram (dumps [PStr [0xDC80]; PBytes []; PBytes []; PBytes [];
                      PBytes []])) st_alice
  = (Stopped,
     {| known_peers := known_peers st_alice;
        console := console st_alice
                   ++ shows (ErrorReceiving
                               (Exception "UnicodeEncodeError")) |}) /\
  listen_iteration bob (Datagram (typed_nested 994)) st_alice
  = (Running, {| known_peers := known_peers st_alice;
                 console := console st_alice
                            ++ [UnknownType (nested 994)] |}) /\
  listen_iteration bob (Datagram (typed_nested 995)) st_alice
  = (Stopped,
     {| known_peers := known_peers st_alice;
        console := console st_alice
                   ++ shows (ErrorReceiving (Exception "RecursionError")) |}).
Proof.
  split; [|split; [|split]].
  - apply (unknown_type_reported bob _ (PStr (lit "chat")) (PBytes [])
             (PBytes []) (PBytes []) (PBytes []) st_alice st_alice).
    + rewrite demo_decode. vm_compute. reflexivity.
    + intros H. vm_compute in H. discriminate H.
    + intros H. vm_compute in H. discriminate H.
    + intros H. vm_compute in H. discriminate H.
    + vm_compute. reflexivity.
  - apply (unknown_type_reported bob _ (PStr [0xDC80]) (PBytes [])
             (PBytes []) (PBytes []) (PBytes []) st_alice st_alice).
    + rewrite demo_decode. vm_compute. reflexivity.
    + intros H. vm_compute in H. discriminate H.
    + intros H. vm_compute in H. discriminate H.
    + intros H. vm_compute in H. discriminate H.
    + vm_compute. reflexivity.
  - apply (unknown_type_reported bob _ (nested 994) (PBytes []) (PBytes [])
             (PBytes []) (PBytes []) st_alice st_alice).
    + rewrite demo_decode. vm_compute. reflexivity.
    + discriminate.
    + discriminate.
    + discriminate.
    + vm_compute. reflexivity.
  - apply (unknown_type_reported bob _ (nested 995) (PBytes []) (PBytes [])
             (PBytes []) (PBytes []) st_alice st_alice).
    + rewrite demo_decode. vm_compute. reflexivity.
    + discriminate.
    + discriminate.
    + discriminate.
    + vm_compute. reflexivity.
Defined.

Lemma pickled_text_is_no_message_witness :
  listen_iteration bob
    (Datagram [x80; x04; x95; x09; x00; x00; x00; x00; x00; x00; x00; x8c;
               x05; x68; x65; x6c; x6c; x6f; x94; x2e]) st_alice
  = (Running, {| known_peers := known_peers st_alice;
                 console := console st_alice
                            ++ [UnknownType (PStr (lit "h"))] |}) /\
  listen_iteration bob
    (Datagram [x80; x04; x8c; x07; xed; xb2; x80; x61; x62; x63; x64; x2e])
    st_alice
  = (Stopped,
     {| known_peers := known_peers st_alice;
        console := console st_alice
                   ++ shows (ErrorReceiving
                               (Exception "UnicodeEncodeError")) |}).
Proof.
  split.
  - apply (pickled_text_is_no_message bob _ (lit "hello") st_alice st_alice).
    + vm_compute. reflexivity.
    + repeat constructor.
  - apply (pickled_text_is_no_message bob _ (0xDC80 :: lit "abcd")
             st_alice st_alice).
    + vm_compute. reflexivity.
    + repeat constructor.
Defined.

Lemma loop_ends_on_an_error_line_witness :
  exists evs1 ev evs2 st1 name,
    [Datagram (join_from key_A "alice"); Datagram [];
     Datagram (leave_from "alice")] = evs1 ++ ev :: evs2 /\
    listen_for_messages bob evs1 initial = (Running, st1) /\
    console
      {| known_peers := {[ alice := key_A ]};
         console := [Welcome alice; ErrorReceiving (Exception "EOFError")] |}
    = console st1 ++ shows (ErrorReceiving (Exception name)) /\
    (known_peers
       {| known_peers := {[ alice := key_A ]};
          console := [Welcome alice; ErrorReceiving (Exception "EOFError")] |}
     = known_peers st1 \/
     exists u k,
       carries ev u k /\ known_peers st1 !! u = None /\
       written (Welcome u) = inl (Exception name) /\
       known_peers
         {| known_peers := {[ alice := key_A ]};
            console := [Welcome alice;
                        ErrorReceiving (Exception "EOFError")] |}
       = <[u := k]> (known_peers st1)).
Proof.
  apply (loop_ends_on_an_error_line bob
           [Datagram (join_from key_A "alice"); Datagram [];
            Datagram (leave_from "alice")] initial).
  - intros ev Hin. demo_data Hin.
  - vm_compute. reflexivity.
Defined.

Lemma field_failure_ends_loop_witness :
  listen_for_messages bob
    [Datagram (dumps [PStr (lit "LEAVE"); PBytes [xff]; PBytes [];
                      PBytes []; PBytes []]);
     Datagram (leave_from "alice")] st_alice
  = (Stopped,
     {| known_peers := known_peers st_alice;
        console := console st_alice
                   ++ shows (ErrorReceiving
                               (Exception "UnicodeDecodeError")) |}).
Proof.
  apply (field_failure_ends_loop bob _ "LEAVE" (PBytes [xff]) (PBytes [])
           (PBytes []) (PBytes []) "UnicodeDecodeError" _ st_alice st_alice).
  - rewrite demo_decode. vm_compute. reflexivity.
  - right. right. split; [reflexivity|]. vm_compute. reflexivity.
Defined.

Lemma leave_then_join_rebinds_witness :
  listen_for_messages bob
    [Datagram (leave_from "alice"); Datagram (join_from key_B "alice")]
    st_alice
  = (Running,
     {| known_peers := <[alice := key_B]> (known_peers st_alice);
        console := console st_alice ++ [HasLeft alice; Welcome alice] |}).
Proof.
  apply (leave_then_join_rebinds bob).
  - exists (leave_from "alice"), (PBytes (list_byte_of_string "alice")),
      (PBytes []), (PBytes []), (PBytes []).
    split; [reflexivity|].
    split; [apply demo_decodes|]; vm_compute; reflexivity.
  - exists (join_from key_B "alice"),
      (PBytes (rev (list_byte_of_string "alice"))), (PBytes nonce),
      (PBytes (rev key_B)), (PBytes nonce).
    split; [reflexivity|].
    split; [apply demo_decodes|split]; vm_compute; reflexivity.
Defined.

Lemma join_then_leave_forgets_witness :
  let st' := snd (listen_for_messages bob
                    [Datagram (join_from key_A "alice");
                     Datagram (leave_from "alice")] initial) in
  known_peers st' = delete alice (known_peers (initial : state bytes)) /\
  (known_peers (initial : state bytes) !! alice = None ->
   st' = {| known_peers := known_peers (initial : state bytes);
            console := console (initial : state bytes)
                       ++ [Welcome alice; HasLeft alice] |}).
Proof.
  apply (join_then_leave_forgets bob _ _ alice key_A initial).
  - exists (join_from key_A "alice"),
      (PBytes (rev (list_byte_of_string "alice"))), (PBytes nonce),
      (PBytes (rev key_A)), (PBytes nonce).
    split; [reflexivity|].
    split; [apply demo_decodes|split]; vm_compute; reflexivity.
  - exists (leave_from "alice"), (PBytes (list_byte_of_string "alice")),
      (PBytes []), (PBytes []), (PBytes []).
    split; [reflexivity|].
    split; [apply demo_decodes|]; vm_compute; reflexivity.
Defined.

End ReceiveFacts.

(** ** What one peer sends, received by another *)

Module DeliveryFacts.
Import Py Client Program Utf8Facts ClientFacts ReceiveFacts.

Lemma startswith_nil (s : str) : startswith s [] = true.
Proof. now destruct s. Qed.

Lemma startswith_app (p x : str) : startswith (p ++ x) p = true.
Proof.
  induction p as [|c p IH]; [apply startswith_nil|].
  cbn [app startswith]. now rewrite N.eqb_refl.
Qed.

(** A prefix no longer than the text is looked for in the text alone. *)
Lemma startswith_app_long (p s x : str) :
  (length p <= length s)%nat -> startswith (s ++ x) p = startswith s p.
Proof.
  revert s. induction p as [|c p IH]; intros s Hlen.
  - now rewrite !startswith_nil.
  - destruct s as [|d s]; [cbn in Hlen; lia|].
    cbn [app startswith]. rewrite IH; [reflexivity|]. cbn in Hlen. lia.
Qed.

(** The sender field of a formatted line is the username, when the username
    holds no ": ". *)
Lemma split_head_formatted (a raw : str) :
  no_separator a = true ->
  split_head (lit ": ") (a ++ lit ": " ++ raw) = a.
Proof.
  intros Hno. apply (own_prefix_is_sender a _ Hno).
  rewrite app_assoc. apply startswith_app.
Qed.

Lemma separator_needs_two (a : str) :
  no_separator a = false -> (2 <= length a)%nat.
Proof.
  induction a as [|c a IH]; [discriminate|].
  cbn [no_separator]. intros H. apply andb_false_iff in H as [H|H].
  - apply negb_false_iff in H. change (lit ": ") with [58; 32] in H.
    destruct a as [|d a]; [|cbn; lia].
    cbn [startswith] in H. now rewrite andb_false_r in H.
  - specialize (IH H). cbn. lia.
Qed.

(** When the username holds ": ", the sender field of a formatted line is
    the part of the username before it. *)
Lemma split_head_separator (a x : str) :
  no_separator a = false ->
  split_head (lit ": ") (a ++ x) = split_head (lit ": ") a.
Proof.
  induction a as [|c a IH]; [discriminate|].
  intros H. pose proof (separator_needs_two _ H) as Hlen.
  change ((c :: a) ++ x) with (c :: (a ++ x)).
  cbn [split_head].
  change (c :: (a ++ x)) with ((c :: a) ++ x).
  rewrite (startswith_app_long (lit ": ") (c :: a) x) by exact Hlen.
  cbn [no_separator] in H.
  destruct (startswith (c :: a) (lit ": ")); [reflexivity|].
  cbn in H. f_equal. now apply IH.
Qed.

Section Delivery.
Context {pubkey : Type} `{!Collaborators pubkey}.

Lemma decode_pickled items envelope :
  pickles items -> unpack5 (PTuple items) = inr envelope ->
  decodes (pickle_dumps items) envelope.
Proof. intros H Hv. now apply (decodes_plain _ (PTuple items)). Qed.

Lemma encoded_text a name : encode_utf8 a = inr name -> is_text a.
Proof.
  unfold encode_utf8.
  destruct (Utf8.encode false a) as [b|] eqn:E; [|discriminate].
  intros _. now apply (encode_is_text a b).
Qed.

Lemma discovery_payload_items a name :
  encode_utf8 a = inr name ->
  discovery_payload a = inr (pickle_dumps (join_items name)).
Proof.
  intros Ha. unfold discovery_payload, join_items. rewrite Ha.
  destruct (pack_data_unsigned name) as [c1 n1].
  now destruct (pack_data_unsigned get_ed_public_key) as [c2 n2].
Qed.

Lemma send_iteration_items a raw message :
  lower raw <> lit "exit" ->
  encode_utf8 (a ++ lit ": " ++ raw) = inr message ->
  send_iteration a raw = SendChat (pickle_dumps (chat_items message)).
Proof.
  intros Hne Hm. unfold send_iteration, chat_items.
  rewrite (bool_decide_eq_false_2 _ Hne), Hm.
  now destruct (pack_data message) as [[c n] sg].
Qed.

Lemma leave_payload_items a name :
  encode_utf8 a = inr name ->
  leave_payload a = inr (pickle_dumps (leave_items name)).
Proof. intros Ha. unfold leave_payload, leave_items. now rewrite Ha. Qed.

Lemma decode_utf8_encoded a name :
  encode_utf8 a = inr name -> decode_utf8 (PBytes name) = inr a.
Proof.
  unfold encode_utf8, decode_utf8.
  destruct (Utf8.encode false a) as [b|] eqn:E; [|discriminate].
  intros [= <-]. now rewrite (Utf8Facts.decode_encode _ _ _ E).
Qed.

(** X11: the JOIN the discovery loop builds for a username, when it
    survives pickling and both its fields decrypt, is taken by the receive
    loop of any peer, the sender included: it adds the username with the
    announced key and prints the welcome when the username is absent, and
    does nothing when it is present. *)
Theorem discovery_join_is_accepted a b name k (st : state pubkey) :
  encode_utf8 a = inr name ->
  pickles (join_items name) ->
  decrypts_unsigned name a -> key_decrypts k ->
  exists payload,
    discovery_payload a = inr payload /\
    listen_iteration b (Datagram payload) st
    = (Running,
       match known_peers st !! a with
       | None => {| known_peers := <[a := k]> (known_peers st);
                    console := console st ++ [Welcome a] |}
       | Some _ => st
       end).
Proof.
  intros Ha Hp Hd Hk. exists (pickle_dumps (join_items name)).
  split; [now apply discovery_payload_items|].
  apply listen_iteration_carries;
    [|apply written_welcome; now apply (encoded_text a name)].
  eexists _, _, _, _, _. split; [reflexivity|].
  split; [apply (decode_pickled _ _ Hp); reflexivity|].
  split; [exact Hd|exact Hk].
Qed.

(** X12: the CHAT the send loop builds for a typed line, handed back to
    the peer that sent it, is dropped without a word, whatever the
    directory holds and whatever the signature. *)
Theorem own_chat_is_not_displayed a raw message (st : state pubkey) :
  lower raw <> lit "exit" ->
  encode_utf8 (a ++ lit ": " ++ raw) = inr message ->
  pickles (chat_items message) ->
  decrypts message (a ++ lit ": " ++ raw) ->
  exists payload,
    send_iteration a raw = SendChat payload /\
    listen_iteration a (Datagram payload) st = (Running, st).
Proof.
  intros Hne Hm Hp Hd. exists (pickle_dumps (chat_items message)).
  split; [now apply send_iteration_items|].
  apply listen_iteration_ok.
  rewrite (try_body_decoded a _ _ st st
             (decode_pickled _ _ Hp eq_refl st)).
  rewrite dispatch_chat, on_chat_cases. unfold decrypts in Hd. rewrite Hd.
  now rewrite app_assoc, startswith_app.
Qed.

(** X13: the CHAT the send loop builds for a typed line is displayed by
    another peer as the sender's username, ": " and the line, and changes
    nothing else, when the sender is in the receiver's directory under the
    key its signature verifies against and neither username holds ": ". *)
Theorem chat_is_delivered a b raw message k (st : state pubkey) :
  lower raw <> lit "exit" ->
  encode_utf8 (a ++ lit ": " ++ raw) = inr message ->
  pickles (chat_items message) ->
  decrypts message (a ++ lit ": " ++ raw) ->
  signs k message ->
  no_separator a = true -> no_separator b = true -> a <> b ->
  known_peers st !! a = Some k ->
  exists payload,
    send_iteration a raw = SendChat payload /\
    listen_iteration b (Datagram payload) st
    = (Running, {| known_peers := known_peers st;
                   console := console st ++ [Display (a ++ lit ": " ++ raw)] |}).
Proof.
  intros Hne Hm Hp Hd Hs Ha Hb Hab Hk.
  exists (pickle_dumps (chat_items message)).
  split; [now apply send_iteration_items|].
  apply listen_iteration_ok.
  rewrite (try_body_decoded b _ _ st st
             (decode_pickled _ _ Hp eq_refl st)).
  rewrite dispatch_chat, on_chat_cases. unfold decrypts in Hd. rewrite Hd.
  destruct (startswith (a ++ lit ": " ++ raw) (b ++ lit ": ")) eqn:Hown.
  { exfalso. apply Hab.
    rewrite <- (split_head_formatted a raw Ha).
    now apply own_prefix_is_sender. }
  rewrite (split_head_formatted a raw Ha), Hk, Hm.
  unfold signs in Hs. now rewrite Hs.
Qed.

(** X14: a peer whose username holds ": " is looked up under the part of
    the username before it: its CHAT is displayed by nobody whose
    directory lacks that shorter name, even one that has the peer under
    its full username. *)
Theorem separator_in_username_blocks_chat a b raw message (st : state pubkey) :
  lower raw <> lit "exit" ->
  encode_utf8 (a ++ lit ": " ++ raw) = inr message ->
  pickles (chat_items message) ->
  decrypts message (a ++ lit ": " ++ raw) ->
  no_separator a = false ->
  known_peers st !! split_head (lit ": ") a = None ->
  exists payload,
    send_iteration a raw = SendChat payload /\
    listen_iteration b (Datagram payload) st = (Running, st).
Proof.
  intros Hne Hm Hp Hd Ha Hk.
  exists (pickle_dumps (chat_items message)).
  split; [now apply send_iteration_items|].
  apply listen_iteration_ok.
  rewrite (try_body_decoded b _ _ st st
             (decode_pickled _ _ Hp eq_refl st)).
  rewrite dispatch_chat, on_chat_cases. unfold decrypts in Hd. rewrite Hd.
  destruct (startswith (a ++ lit ": " ++ raw) (b ++ lit ": "));
    [reflexivity|].
  now rewrite (split_head_separator a _ Ha), Hk.
Qed.

(** X15: the LEAVE sent on the way out, when it survives pickling, makes
    any peer that receives it print the departure and remove the username
    from its directory. *)
Theorem leave_payload_is_processed a b name (st : state pubkey) :
  encode_utf8 a = inr name ->
  pickles (leave_items name) ->
  exists payload,
    leave_payload a = inr payload /\
    listen_iteration b (Datagram payload) st
    = (Running, {| known_peers := delete a (known_peers st);
                   console := console st ++ [HasLeft a] |}).
Proof.
  intros Ha Hp. exists (pickle_dumps (leave_items name)).
  split; [now apply leave_payload_items|].
  apply listen_iteration_names_leave.
  eexists _, _, _, _, _. split; [reflexivity|].
  split; [apply (decode_pickled _ _ Hp); reflexivity|].
  now apply decode_utf8_encoded.
Qed.

End Delivery.

Import Demo.

Lemma discovery_join_is_accepted_witness :
  let st : state bytes := initial in
  exists payload,
    discovery_payload alice = inr payload /\
    listen_iteration bob (Datagram payload) st
    = (Running,
       match known_peers st !! alice with
       | None => {| known_peers := <[alice := local_key]> (known_peers st);
                    console := console st ++ [Welcome alice] |}
       | Some _ => st
       end).
Proof.
  apply (discovery_join_is_accepted alice bob (list_byte_of_string "alice")
           local_key initial); vm_compute; reflexivity.
Defined.

Lemma own_chat_is_not_displayed_witness :
  exists payload,
    send_iteration bob (lit "hello") = SendChat payload /\
    listen_iteration bob (Datagram payload) st_alice = (Running, st_alice).
Proof.
  apply (own_chat_is_not_displayed bob (lit "hello")
           (list_byte_of_string "bob: hello") st_alice).
  - vm_compute. discriminate.
  - vm_compute. reflexivity.
  - vm_compute. reflexivity.
  - vm_compute. reflexivity.
Defined.

Lemma chat_is_delivered_witness :
  let st : state bytes :=
    {| known_peers := {[ alice := local_key ]}; console := [] |} in
  exists payload,
    send_iteration alice (lit "hello") = SendChat payload /\
    listen_iteration bob (Datagram payload) st
    = (Running,
       {| known_peers := known_peers st;
          console := console st ++ [Display (lit "alice: hello")] |}).
Proof.
  intros st.
  apply (chat_is_delivered alice bob (lit "hello")
           (list_byte_of_string "alice: hello") local_key st).
  - vm_compute. discriminate.
  - vm_compute. reflexivity.
  - vm_compute. reflexivity.
  - vm_compute. reflexivity.
  - vm_compute. reflexivity.
  - vm_compute. reflexivity.
  - vm_compute. reflexivity.
  - vm_compute. discriminate.
  - vm_compute. reflexivity.
Defined.

Lemma separator_in_username_blocks_chat_witness :
  let st : state bytes :=
    {| known_peers := {[ lit "al: ice" := local_key ]}; console := [] |} in
  exists payload,
    send_iteration (lit "al: ice") (lit "hello") = SendChat payload /\
    listen_iteration bob (Datagram payload) st = (Running, st).
Proof.
  intros st.
  apply (separator_in_username_blocks_chat (lit "al: ice") bob (lit "hello")
           (list_byte_of_string "al: ice: hello") st).
  - vm_compute. discriminate.
  - vm_compute. reflexivity.
  - vm_compute. reflexivity.
  - vm_compute. reflexivity.
  - vm_compute. reflexivity.
  - vm_compute. reflexivity.
Defined.

Lemma leave_payload_is_processed_witness :
  exists payload,
    leave_payload alice = inr payload /\
    listen_iteration bob (Datagram payload) st_alice
    = (Running, {| known_peers := delete alice (known_peers st_alice);
                   console := console st_alice ++ [HasLeft alice] |}).
Proof.
  apply (leave_payload_is_processed alice bob (list_byte_of_string "alice")
           st_alice); vm_compute; reflexivity.
Defined.

End DeliveryFacts.

(** ** The prompt, the discovery loop, the send loop and the shutdown *)

Module ProgramFacts.
Import Py Client Program.

Lemma lstrip_split (s : str) :
  exists l, s = l ++ lstrip s /\ forallb is_space l = true.
Proof.
  induction s as [|c s [l [Hs Hl]]]; [now exists []|].
  cbn [lstrip]. destruct (is_space c) eqn:Hc.
  - exists (c :: l). cbn [app forallb]. rewrite Hc, Hl. now rewrite <- Hs.
  - now exists [].
Qed.

Lemma lstrip_head (s : str) c r : lstrip s = c :: r -> is_space c = false.
Proof.
  induction s as [|d s IH]; [discriminate|].
  cbn [lstrip]. destruct (is_space d) eqn:Hd; [exact IH|].
  now intros [= <- _].
Qed.

Lemma lstrip_blank (s : str) : forallb is_space s = true -> lstrip s = [].
Proof.
  induction s as [|c s IH]; [reflexivity|].
  cbn [forallb lstrip]. intros H. apply andb_prop in H as [-> H]. auto.
Qed.

Lemma forallb_rev {A} (f : A -> bool) (l : list A) :
  forallb f (rev l) = forallb f l.
Proof.
  induction l as [|a l IH]; [reflexivity|].
  cbn [rev forallb]. rewrite forallb_app, IH. cbn. rewrite andb_true_r.
  apply andb_comm.
Qed.

Lemma rstrip_split (s : str) :
  exists r, s = rstrip s ++ r /\ forallb is_space r = true.
Proof.
  destruct (lstrip_split (rev s)) as [l [Hs Hl]].
  exists (rev l). unfold rstrip. split.
  - rewrite <- rev_app_distr, <- Hs. now rewrite rev_involutive.
  - now rewrite forallb_rev.
Qed.

Lemma rstrip_last (s : str) :
  rstrip s = [] \/ exists r c, rstrip s = r ++ [c] /\ is_space c = false.
Proof.
  unfold rstrip. destruct (lstrip (rev s)) as [|c r] eqn:E; [now left|].
  right. exists (rev r), c. split; [reflexivity|].
  exact (lstrip_head _ _ _ E).
Qed.

(** X16: the prompt refuses an answer exactly when the answer is made of
    whitespace only, the empty answer included. *)
Theorem prompt_refuses_blank (typed : str) :
  prompt_username typed = None <-> forallb is_space typed = true.
Proof.
  unfold prompt_username, strip. split.
  - intros H.
    destruct (lstrip_split typed) as [l [Ht Hl]].
    destruct (rstrip_split (lstrip typed)) as [r [Hs Hr]].
    destruct (rstrip (lstrip typed)) as [|c u]; [|discriminate].
    rewrite Ht, Hs. cbn [app]. rewrite forallb_app. now rewrite Hl, Hr.
  - intros H. now rewrite (lstrip_blank _ H).
Qed.

(** X17: the username the prompt accepts is the answer without the
    whitespace around it: it is not empty and neither starts nor ends with
    whitespace (whitespace inside is kept). *)
Theorem prompt_username_is_stripped (typed username : str) :
  prompt_username typed = Some username ->
  (exists l r, typed = l ++ username ++ r /\
               forallb is_space l = true /\ forallb is_space r = true) /\
  (exists c s, username = c :: s /\ is_space c = false) /\
  (exists s c, username = s ++ [c] /\ is_space c = false).
Proof.
  unfold prompt_username, strip. intros H.
  assert (Hu : rstrip (lstrip typed) = username /\ username <> []).
  { destruct (rstrip (lstrip typed)) as [|c u]; [discriminate|].
    injection H as <-. now split. }
  clear H. destruct Hu as [Hu Hne].
  destruct (lstrip_split typed) as [l [Ht Hl]].
  destruct (rstrip_split (lstrip typed)) as [r [Hs Hr]].
  rewrite Hu in Hs. split; [|split].
  - exists l, r. split; [|now split]. now rewrite <- Hs.
  - destruct username as [|c s]; [now destruct Hne|].
    exists c, s. split; [reflexivity|].
    exact (lstrip_head _ _ _ Hs).
  - destruct (rstrip_last (lstrip typed)) as [Hnil|(s & c & Hl' & Hc)].
    + rewrite Hu in Hnil. now destruct Hne.
    + rewrite Hu in Hl'. now exists s, c.
Qed.

Lemma ascii_lower_is a c :
  (97 <= a)%N -> (a <= 122)%N ->
  ascii_lower c = a <-> c = a \/ c = a - 32.
Proof.
  intros Hlo Hhi. unfold ascii_lower.
  destruct ((65 <=? c) && (c <=? 90)) eqn:E.
  - apply andb_prop in E as [E1 E2].
    apply N.leb_le in E1. apply N.leb_le in E2. lia.
  - apply andb_false_iff in E as [E|E]; apply N.leb_gt in E; lia.
Qed.

Section Loops.
Context {pubkey : Type} `{!Collaborators pubkey}.
Variable username : str.

Lemma send_iteration_exit raw :
  send_iteration username raw = Exit <-> lower raw = lit "exit".
Proof.
  unfold send_iteration. destruct (bool_decide (lower raw = lit "exit")) eqn:E.
  - apply bool_decide_eq_true in E. now split.
  - apply bool_decide_eq_false in E. split; [|intros H; now destruct E].
    destruct (encode_utf8 (username ++ lit ": " ++ raw)) as [err|message];
      [discriminate|].
    now destruct (pack_data message) as [[c n] sg].
Qed.

(** X18: among the lines of ASCII text, those that end the send loop are
    the sixteen spellings of "exit" in lower and upper case and no other:
    the line is not stripped, so "exit " is sent as a message. *)
Theorem ascii_exit_commands (raw : str) :
  is_ascii raw = true ->
  send_iteration username raw = Exit <->
  exists c1 c2 c3 c4,
    raw = [c1; c2; c3; c4] /\
    (c1 = 101 \/ c1 = 69) /\ (c2 = 120 \/ c2 = 88) /\
    (c3 = 105 \/ c3 = 73) /\ (c4 = 116 \/ c4 = 84).
Proof.
  intros Hascii. rewrite send_iteration_exit.
  unfold lower. rewrite Hascii. change (lit "exit") with [101; 120; 105; 116].
  split.
  - destruct raw as [|c1 [|c2 [|c3 [|c4 [|c5 raw]]]]]; try discriminate.
    cbn [map]. intros [= H1 H2 H3 H4]. exists c1, c2, c3, c4.
    split; [reflexivity|].
    apply (ascii_lower_is 101) in H1; [|lia..].
    apply (ascii_lower_is 120) in H2; [|lia..].
    apply (ascii_lower_is 105) in H3; [|lia..].
    apply (ascii_lower_is 116) in H4; [|lia..].
    repeat split; assumption.
  - intros (c1 & c2 & c3 & c4 & -> & H1 & H2 & H3 & H4). cbn [map].
    apply (ascii_lower_is 101) in H1; [|lia..].
    apply (ascii_lower_is 120) in H2; [|lia..].
    apply (ascii_lower_is 105) in H3; [|lia..].
    apply (ascii_lower_is 116) in H4; [|lia..].
    now rewrite H1, H2, H3, H4.
Qed.

(** The send loop over lines that are sent. *)
Lemma send_loop_sent lines payloads events :
  Forall2 (fun raw payload => send_iteration username raw = SendChat payload)
    lines payloads ->
  send_loop username (map (fun raw => Typed raw None) lines ++ events)
  = let '(datagrams, shown, exit) := send_loop username events in
    (payloads ++ datagrams, shown, exit).
Proof.
  induction 1 as [|raw payload lines payloads Hraw _ IH]; cbn [map app].
  - now destruct (send_loop username events) as [[d s] e].
  - cbn [send_loop]. rewrite Hraw, IH.
    now destruct (send_loop username events) as [[d s] e].
Qed.

(** X19: on each way out of the send loop that the program handles (the
    exit command, Ctrl-C at the prompt, a [sendto] that fails) the CHATs
    of the lines typed before have been sent in order, one line is
    printed, the LEAVE is sent once, last (its [sendto] not raising), and
    what was typed after is never read. *)
Theorem orderly_exit_sends_leave_last lines payloads stopper shown rest leave :
  Forall2 (fun raw payload => send_iteration username raw = SendChat payload)
    lines payloads ->
  (stopper = Interrupt /\ shown = ExitingChatOnNewLine) \/
  (exists raw outcome,
     stopper = Typed raw outcome /\ lower raw = lit "exit" /\
     shown = ExitingChat) \/
  (exists raw errno payload,
     stopper = Typed raw (Some errno) /\
     send_iteration username raw = SendChat payload /\
     shown = ErrorSendingPayload errno) ->
  leave_payload username = inr leave ->
  main username (map (fun raw => Typed raw None) lines ++ stopper :: rest)
    None
  = {| sent := payloads ++ [leave]; shown := [shown]; ended := Exited |}.
Proof.
  intros Hlines Hstop Hleave. unfold main.
  rewrite (send_loop_sent _ _ _ Hlines).
  assert (Hs : send_loop username (stopper :: rest) = ([], [shown], LeftLoop)).
  { destruct Hstop as [[-> ->]|[(raw & o & -> & Hexit & ->)
                               |(raw & errno & p & -> & Hp & ->)]].
    - reflexivity.
    - cbn [send_loop]. apply send_iteration_exit in Hexit. now rewrite Hexit.
    - cbn [send_loop]. now rewrite Hp. }
  rewrite Hs, Hleave. now rewrite app_nil_r.
Qed.

Lemma encode_surrogate (s : str) c :
  c ∈ s -> is_surrogate c = true -> Utf8.encode false s = None.
Proof.
  intros Hin Hc. induction s as [|d s IH]; [now apply elem_of_nil in Hin|].
  cbn [Utf8.encode]. apply elem_of_cons in Hin as [<-|Hin].
  - rewrite Hc. cbn. now rewrite andb_false_r.
  - rewrite (IH Hin). now destruct (_ && _).
Qed.

(** X20: the end of the input, or a line holding a lone surrogate, unwinds
    the main thread with an exception nothing catches: the CHATs of the
    lines before have been sent, nothing is printed and no LEAVE is
    sent, whatever the socket would have done. *)
Theorem uncaught_exit_sends_no_leave lines payloads killer e rest outcome :
  Forall2 (fun raw payload => send_iteration username raw = SendChat payload)
    lines payloads ->
  (killer = EndOfFile /\ e = Exception "EOFError") \/
  (exists raw o c,
     killer = Typed raw o /\ lower raw <> lit "exit" /\
     c ∈ raw /\ is_surrogate c = true /\
     e = Exception "UnicodeEncodeError") ->
  main username (map (fun raw => Typed raw None) lines ++ killer :: rest)
    outcome
  = {| sent := payloads; shown := []; ended := Died e |}.
Proof.
  intros Hlines Hkill. unfold main.
  rewrite (send_loop_sent _ _ _ Hlines).
  assert (Hs : send_loop username (killer :: rest) = ([], [], Unwound e)).
  { destruct Hkill as [[-> ->]|(raw & o & c & -> & Hne & Hin & Hc & ->)].
    - reflexivity.
    - cbn [send_loop]. unfold send_iteration.
      rewrite (bool_decide_eq_false_2 _ Hne). unfold encode_utf8.
      rewrite (encode_surrogate _ c); [reflexivity| |exact Hc].
      apply elem_of_app. right. apply elem_of_app. now right. }
  rewrite Hs. now rewrite app_nil_r.
Qed.

(** X21: the discovery loop announces the peer once per turn until a
    [sendto] raises; it then prints one error line and ends, so that the
    peer is not announced again, whatever the socket would do later. *)
Theorem discovery_loop_until_failure n e rest :
  (exists payload, discovery_payload username = inr payload) ->
  exists datagrams,
    discovery_loop username (repeat None n ++ Some e :: rest)
    = (datagrams, [ErrorDiscovery e], Stopped) /\
    length datagrams = n /\
    Forall (fun payload => discovery_payload username = inr payload)
      datagrams.
Proof.
  intros [payload Hp]. exists (repeat payload n).
  split; [|split].
  - induction n as [|n IH]; cbn [repeat app discovery_loop]; rewrite Hp;
      [reflexivity|]. now rewrite IH.
  - apply repeat_length.
  - induction n as [|n IH]; cbn [repeat]; constructor; assumption.
Qed.

(** X22: under a username that holds a lone surrogate the discovery loop
    ends at its first turn without a datagram, the main thread sends
    nothing, neither CHAT nor LEAVE, and never reaches its orderly end. *)
Theorem unencodable_username_sends_nothing c outcome rest events :
  c ∈ username -> is_surrogate c = true ->
  discovery_loop username (outcome :: rest)
  = ([], [ErrorDiscovery (Exception "UnicodeEncodeError")], Stopped) /\
  (forall o, sent (main username events o) = [] /\
             ended (main username events o) <> Exited).
Proof.
  intros Hin Hc.
  assert (He : encode_utf8 username = inl (Exception "UnicodeEncodeError"))
    by (unfold encode_utf8; now rewrite (encode_surrogate _ c Hin Hc)).
  split.
  - cbn [discovery_loop]. unfold discovery_payload. now rewrite He.
  - intros o.
    assert (Hs : exists shown exit, send_loop username events = ([], shown, exit)).
    { destruct events as [|[raw sendto| |] events]; cbn [send_loop];
        try (eexists _, _; reflexivity).
      unfold send_iteration.
      destruct (bool_decide (lower raw = lit "exit"));
        [eexists _, _; reflexivity|].
      unfold encode_utf8.
      rewrite (encode_surrogate _ c); [eexists _, _; reflexivity| |exact Hc].
      apply elem_of_app. now left. }
    destruct Hs as (shown & exit & Hs). unfold main, leave_payload.
    rewrite Hs, He. now destruct exit.
Qed.

End Loops.

Import Demo.

Lemma prompt_username_is_stripped_witness :
  (exists l r, lit "  bob smith " = l ++ lit "bob smith" ++ r /\
               forallb is_space l = true /\ forallb is_space r = true) /\
  (exists c s, lit "bob smith" = c :: s /\ is_space c = false) /\
  (exists s c, lit "bob smith" = s ++ [c] /\ is_space c = false).
Proof.
  apply (prompt_username_is_stripped (lit "  bob smith ") (lit "bob smith")).
  vm_compute. reflexivity.
Defined.

Lemma ascii_exit_commands_witness :
  send_iteration bob (lit "eXIt") = Exit /\
  send_iteration bob (lit "exit ") <> Exit.
Proof.
  split.
  - apply (ascii_exit_commands bob (lit "eXIt")); [reflexivity|].
    exists 101, 88, 73, 116. repeat split; (now left) || now right.
  - intros H.
    apply (ascii_exit_commands bob (lit "exit ")) in H; [|reflexivity].
    destruct H as (c1 & c2 & c3 & c4 & H & _). discriminate H.
Defined.

Lemma orderly_exit_sends_leave_last_witness :
  main bob
    (map (fun raw => Typed raw None) [lit "hi"]
     ++ Typed (lit "EXIT") None :: [Typed (lit "late") None]) None
  = {| sent := [chat_from local_key "bob: hi"] ++ [leave_from "bob"];
       shown := [ExitingChat]; ended := Exited |}.
Proof.
  apply (orderly_exit_sends_leave_last bob [lit "hi"]
           [chat_from local_key "bob: hi"] (Typed (lit "EXIT") None)
           ExitingChat [Typed (lit "late") None] (leave_from "bob")).
  - constructor; [vm_compute; reflexivity|constructor].
  - right. left. exists (lit "EXIT"), None.
    split; [reflexivity|]. split; [vm_compute; reflexivity|reflexivity].
  - vm_compute. reflexivity.
Defined.

Lemma uncaught_exit_sends_no_leave_witness :
  main bob
    (map (fun raw => Typed raw None) [lit "hi"]
     ++ Typed [0xDC80] None :: [Typed (lit "exit") None]) None
  = {| sent := [chat_from local_key "bob: hi"]; shown := [];
       ended := Died (Exception "UnicodeEncodeError") |}.
Proof.
  apply (uncaught_exit_sends_no_leave bob [lit "hi"]
           [chat_from local_key "bob: hi"] (Typed [0xDC80] None)
           (Exception "UnicodeEncodeError") [Typed (lit "exit") None] None).
  - constructor; [vm_compute; reflexivity|constructor].
  - right. exists [0xDC80], None, 0xDC80.
    split; [reflexivity|]. split; [vm_compute; discriminate|].
    split; [apply list_elem_of_here|]. split; reflexivity.
Defined.

Lemma discovery_loop_until_failure_witness :
  exists datagrams,
    discovery_loop bob
      (repeat None 2 ++ Some (OSError 101) :: [None; None])
    = (datagrams, [ErrorDiscovery (OSError 101)], Stopped) /\
    length datagrams = 2%nat /\
    Forall (fun payload => discovery_payload bob = inr payload) datagrams.
Proof.
  apply (discovery_loop_until_failure bob 2 (OSError 101) [None; None]).
  exists (join_from local_key "bob"). vm_compute. reflexivity.
Defined.

Lemma unencodable_username_sends_nothing_witness :
  discovery_loop [0xDC80] [None; None]
  = ([], [ErrorDiscovery (Exception "UnicodeEncodeError")], Stopped) /\
  (forall o, sent (main [0xDC80] [Typed (lit "hi") None; Interrupt] o) = [] /\
             ended (main [0xDC80] [Typed (lit "hi") None; Interrupt] o)
             <> Exited).
Proof.
  apply (unencodable_username_sends_nothing [0xDC80] 0xDC80 None [None]
           [Typed (lit "hi") None; Interrupt]).
  - apply list_elem_of_here.
  - reflexivity.
Defined.

End ProgramFacts.
